(** * Microkubes/backends: the MongoDB repository, its identity
    normalisation and its query translation

  A shallow embedding of [helper.go] and [mongodb.go].  Go maps are
  finite maps ([gmap]), Go strings are [string]s (one character per
  byte), interface values are a tagged union of the dynamic types the
  code inspects, and a function that can return an error or panic
  returns an [outcome].  The mgo driver and the storage engine behind
  it are a small explicit model: a list of documents, a pending
  transport failure, and the engine's matching and sorting taken as an
  interface. *)

From Stdlib Require Import ZArith NArith Ascii String List Bool Lia.
From stdpp Require Import base gmap strings list fin_maps.

Local Open Scope string_scope.
Local Open Scope list_scope.

(** ** Go strings

  The functions of package [strings] that the repository calls.  A
  separator is always the one-character string [","] in this code, so
  separators are characters here. *)

Module strings.

Fixpoint Split (s : string) (sep : ascii) : list string :=
  match s with
  | EmptyString => [ EmptyString ]
  | String c rest =>
      if Ascii.eqb c sep then EmptyString :: Split rest sep
      else match Split rest sep with
           | t :: ts => String c t :: ts
           | [] => [ String c EmptyString ]
           end
  end.

Fixpoint HasPrefix (s prefix : string) : bool :=
  match prefix, s with
  | EmptyString, _ => true
  | String p prefix', String c s' => Ascii.eqb p c && HasPrefix s' prefix'
  | String _ _, EmptyString => false
  end.

(** [Index s sub]: position of the first occurrence of [sub], if any. *)
Fixpoint Index (s sub : string) : option nat :=
  if HasPrefix s sub then Some 0%nat
  else match s with
       | EmptyString => None
       | String _ s' => S <$> Index s' sub
       end.

Definition Contains (s sub : string) : bool :=
  match Index s sub with Some _ => true | None => false end.

Fixpoint HasSuffix (s suffix : string) : bool :=
  if String.eqb s suffix then true
  else match s with
       | EmptyString => false
       | String _ s' => HasSuffix s' suffix
       end.

(** [ToLower] on ASCII text: the letters [A] to [Z] become [a] to
    [z].  The letters outside ASCII, which Go maps as well, are left
    as they are; the statements that depend on the lower-cased name of
    a field are about ASCII names. *)
Definition lower (c : ascii) : ascii :=
  let n := N_of_ascii c in
  if ((65 <=? n) && (n <=? 90))%N then ascii_of_N (n + 32) else c.

Fixpoint ToLower (s : string) : string :=
  match s with
  | EmptyString => EmptyString
  | String c s' => String (lower c) (ToLower s')
  end.

(** [s[0:n]] *)
Fixpoint take (n : nat) (s : string) : string :=
  match n, s with
  | S n', String c s' => String c (take n' s')
  | _, _ => EmptyString
  end.

End strings.

(** ** Runes

  A Go string is a sequence of bytes.  [for _, r := range s] reads it
  as UTF-8, one rune at a time, and [string(r)] writes a rune back as
  UTF-8.  A byte that does not start a well-formed sequence is read as
  [RuneError] (U+FFFD) and takes one byte, as in
  [utf8.DecodeRuneInString]; [string(r)] is [utf8.EncodeRune], which
  writes [RuneError] for a surrogate and for a value above U+10FFFF. *)

Module utf8.

Definition rune : Type := N.

Definition RuneError : rune := 65533%N.

Definition rune_of (c : ascii) : rune := N_of_ascii c.

(** The table [first] together with [acceptRanges], for a byte from
    [0x80] on: the length of the sequence that the byte starts and the
    bounds of its second byte; [None] for a byte that starts no
    sequence. *)
Definition first (b0 : N) : option (N * N * N) :=
  if (b0 <? 194)%N then None
  else if (b0 <=? 223)%N then Some (2, 128, 191)%N
  else if (b0 =? 224)%N then Some (3, 160, 191)%N
  else if (b0 <=? 236)%N then Some (3, 128, 191)%N
  else if (b0 =? 237)%N then Some (3, 128, 159)%N
  else if (b0 <=? 239)%N then Some (3, 128, 191)%N
  else if (b0 =? 240)%N then Some (4, 144, 191)%N
  else if (b0 <=? 243)%N then Some (4, 128, 191)%N
  else if (b0 =? 244)%N then Some (4, 128, 143)%N
  else None.

(** A continuation byte: [locb <= b <= hicb]. *)
Definition continuation (b : N) : bool := ((128 <=? b) && (b <=? 191))%N.

(** The runes that [range s] yields, in order. *)
Fixpoint runes (s : string) : list rune :=
  match s with
  | EmptyString => []
  | String c0 s1 =>
      let b0 := N_of_ascii c0 in
      let invalid := RuneError :: runes s1 in
      if (b0 <? 128)%N then b0 :: runes s1
      else
        match first b0, s1 with
        | Some (size, lo, hi), String c1 s2 =>
            let b1 := N_of_ascii c1 in
            if ((b1 <? lo) || (hi <? b1))%N then invalid
            else if (size =? 2)%N then
              N.lor (N.shiftl (N.land b0 31) 6) (N.land b1 63) :: runes s2
            else
              match s2 with
              | String c2 s3 =>
                  let b2 := N_of_ascii c2 in
                  if negb (continuation b2) then invalid
                  else if (size =? 3)%N then
                    N.lor (N.lor (N.shiftl (N.land b0 15) 12)
                                 (N.shiftl (N.land b1 63) 6))
                          (N.land b2 63)
                    :: runes s3
                  else
                    match s3 with
                    | String c3 s4 =>
                        let b3 := N_of_ascii c3 in
                        if negb (continuation b3) then invalid
                        else
                          N.lor (N.lor (N.lor (N.shiftl (N.land b0 7) 18)
                                              (N.shiftl (N.land b1 63) 12))
                                       (N.shiftl (N.land b2 63) 6))
                                (N.land b3 63)
                          :: runes s4
                    | EmptyString => invalid
                    end
              | EmptyString => invalid
              end
        | _, _ => invalid
        end
  end.

(** [string(r)] *)
Definition EncodeRune (r : rune) : string :=
  let tail (n : N) := ascii_of_N (N.lor 128 (N.land n 63)) in
  let three (r : rune) :=
    String (ascii_of_N (N.lor 224 (N.shiftr r 12)))
      (String (tail (N.shiftr r 6)) (String (tail r) "")) in
  if (r <=? 127)%N then String (ascii_of_N r) ""
  else if (r <=? 2047)%N then
    String (ascii_of_N (N.lor 192 (N.shiftr r 6))) (String (tail r) "")
  else if ((1114111 <? r) || ((55296 <=? r) && (r <=? 57343)))%N then
    three RuneError
  else if (r <=? 65535)%N then three r
  else
    String (ascii_of_N (N.lor 240 (N.shiftr r 18)))
      (String (tail (N.shiftr r 12))
         (String (tail (N.shiftr r 6)) (String (tail r) ""))).

(** [string(rs)] for a slice of runes. *)
Fixpoint encode (rs : list rune) : string :=
  match rs with
  | [] => ""
  | r :: rs' => EncodeRune r +:+ encode rs'
  end.

(** Well-formed UTF-8: the string is the encoding of the runes it
    holds.  A byte that is read as [RuneError] is written back as the
    three bytes of U+FFFD, so this holds exactly when
    [utf8.ValidString] does. *)
Definition ValidString (s : string) : bool := String.eqb (encode (runes s)) s.

End utf8.

(** ** encoding/hex and bson.ObjectId

  [bson.ObjectId] is declared as [type ObjectId string]: twelve raw
  bytes held in a string.  [Hex] is [hex.EncodeToString],
  [IsObjectIdHex] and [ObjectIdHex] go through [hex.DecodeString]. *)

Module hex.

Definition hextable : string := "0123456789abcdef".

Definition digit (n : N) : ascii :=
  match String.get (N.to_nat n) hextable with
  | Some c => c
  | None => "0"%char
  end.

Definition fromHexChar (c : ascii) : option N :=
  let n := N_of_ascii c in
  if ((48 <=? n) && (n <=? 57))%N then Some (n - 48)%N
  else if ((97 <=? n) && (n <=? 102))%N then Some (n - 97 + 10)%N
  else if ((65 <=? n) && (n <=? 70))%N then Some (n - 65 + 10)%N
  else None.

(** [Decode]: two digits per byte; an odd length or a character that
    is not a hexadecimal digit is an error. *)
Fixpoint DecodeString (s : string) : option string :=
  match s with
  | EmptyString => Some EmptyString
  | String _ EmptyString => None
  | String c1 (String c2 rest) =>
      match fromHexChar c1, fromHexChar c2 with
      | Some a, Some b =>
          String (ascii_of_N (N.lor (N.shiftl a 4) b)) <$> DecodeString rest
      | _, _ => None
      end
  end.

Fixpoint EncodeToString (src : string) : string :=
  match src with
  | EmptyString => EmptyString
  | String v rest =>
      let n := N_of_ascii v in
      String (digit (N.shiftr n 4))
        (String (digit (N.land n 15)) (EncodeToString rest))
  end.

End hex.

Module bson.

Definition ObjectId : Type := string.

Definition IsObjectIdHex (s : string) : bool :=
  if Nat.eqb (String.length s) 24 then
    match hex.DecodeString s with Some _ => true | None => false end
  else false.

(** [ObjectIdHex] panics on an invalid argument: [None]. *)
Definition ObjectIdHex (s : string) : option ObjectId :=
  match hex.DecodeString s with
  | Some d => if Nat.eqb (String.length d) 12 then Some d else None
  | None => None
  end.

Definition Hex (id : ObjectId) : string := hex.EncodeToString id.

End bson.

(** ** Interface values

  A value of type [interface{}], by the dynamic types that the code
  tells apart with type assertions and [reflect]. *)

#[local] Set Warnings "-register-all".

Inductive any : Type :=
| VNil
| VBool (b : bool)
| VInt (n : Z)
| VString (s : string)
| VObjectId (id : bson.ObjectId)              (* bson.ObjectId *)
| VObjectIds (ids : list bson.ObjectId)       (* []bson.ObjectId *)
| VStrings (l : list string)                  (* []string *)
| VMapSS (m : gmap string string)             (* map[string]string *)
| VMap (m : gmap string any)                (* map[string]interface{} *)
| VBsonM (m : gmap string any).             (* bson.M *)

(** [type Filter map[string]interface{}]; a stored document has the
  same shape. *)
Abbreviation Filter := (gmap string any).
Abbreviation document := (gmap string any).

(** ** Errors *)

(** Modelled from the spec: the error constructors [ErrInvalidInput],
  [ErrNotFound], [ErrAlreadyExists] and [ErrBackendError] are declared
  outside the excerpt; section 7 of the specification names these four
  kinds, and the call sites pass either a message or an underlying
  error. *)
Inductive kind : Type := InvalidInput | NotFound | AlreadyExists | BackendError.

Inductive error : Type :=
| RepoError (k : kind) (d : detail)           (* one of the four kinds *)
| MgoErrNotFound                              (* mgo.ErrNotFound *)
| MgoQueryError (code : Z) (msg : string)     (* *mgo.QueryError *)
| MgoLastError (code : Z) (msg : string)      (* *mgo.LastError *)
| FmtError (msg : string)                     (* fmt.Errorf *)
| JsonError (msg : string)                    (* encoding/json *)
| TransportError (msg : string)               (* network, timeouts *)
with detail : Type :=
| Msg (s : string)
| Cause (e : error).

Definition ErrInvalidInput (d : detail) : error := RepoError InvalidInput d.
Definition ErrNotFound (d : detail) : error := RepoError NotFound d.
Definition ErrAlreadyExists (d : detail) : error := RepoError AlreadyExists d.
Definition ErrBackendError (d : detail) : error := RepoError BackendError d.

(** The kind a caller can branch on; [None] for an error value that is
  native to the driver or to a library. *)
Definition error_kind (e : error) : option kind :=
  match e with
  | RepoError k _ => Some k
  | _ => None
  end.

Definition backend_native (e : error) : bool :=
  match e with
  | MgoErrNotFound | MgoQueryError _ _ | MgoLastError _ _ => true
  | _ => false
  end.

(** What a call yields: a value, an error, or a run-time panic. *)
Inductive outcome (A : Type) : Type :=
| Ok (a : A)
| Err (e : error)
| Panic (why : string).
Arguments Ok {A} a.
Arguments Err {A} e.
Arguments Panic {A} why.

Definition is_panic {A} (o : outcome A) : bool :=
  match o with Panic _ => true | _ => false end.

(** ** Query translation ([mongodb.go], [toMongoPattern] and [toMongoFilter]) *)

Definition NUL : ascii := Ascii.zero.
Definition percent : ascii := "%"%char.
Definition comma : ascii := ","%char.

(** The body of [for _, r := range pattern]: the state is the text
    built so far and the previous rune. *)
Fixpoint toMongoPattern_loop (pattern : list utf8.rune) (mongoPattern : string)
    (prev : utf8.rune) : string * utf8.rune :=
  match pattern with
  | [] => (mongoPattern, prev)
  | r :: rest =>
      if N.eqb r (utf8.rune_of percent) then
        if N.eqb prev (utf8.rune_of percent)
        then toMongoPattern_loop rest (mongoPattern +:+ "%") (utf8.rune_of NUL)
        else toMongoPattern_loop rest mongoPattern r
      else
        let mp1 := if N.eqb prev (utf8.rune_of percent)
                   then mongoPattern +:+ ".*" else mongoPattern in
        let mp2 := if negb (N.eqb r (utf8.rune_of NUL))
                   then mp1 +:+ utf8.EncodeRune r else mp1 in
        toMongoPattern_loop rest mp2 r
  end.

Definition toMongoPattern (pattern : string) : string :=
  let '(mongoPattern, prev) :=
    toMongoPattern_loop (utf8.runes pattern) "" (utf8.rune_of NUL) in
  let mongoPattern :=
    if N.eqb prev (utf8.rune_of percent) then mongoPattern +:+ ".*"
    else mongoPattern in
  let mongoPattern :=
    if negb (strings.HasPrefix mongoPattern ".*") then "^" +:+ mongoPattern
    else mongoPattern in
  if negb (strings.HasSuffix mongoPattern ".*") then mongoPattern +:+ "$"
  else mongoPattern.

Definition unknown_specification : error :=
  FmtError "unknown filter specification - supported type is $pattern".

(** What one [key, value] pair of the filter becomes: the body of the
    loop of [toMongoFilter] up to the assignment to [mgf[key]]. *)
Definition toMongoValue (value : any) : error + any :=
  match value with
  | VMapSS specs =>
      match specs !! "$pattern" with
      | Some pattern =>
          inr (VBsonM {[ "$regex" := VString (toMongoPattern pattern) ]})
      | None => inl unknown_specification
      end
  | VString val =>
      let values := strings.Split val comma in
      if (1 <? length values)%nat
      then inr (VBsonM {[ "$in" := VStrings values ]})
      else inr value
  | VObjectIds val =>
      if (1 <? length val)%nat
      then inr (VBsonM {[ "$in" := value ]})
      else inr value
  | _ => inr value
  end.

(** One iteration; an error already raised stands for the early
    [return nil, err]. *)
Definition toMongoFilter_step (key : string) (value : any)
    (acc : error + gmap string any) : error + gmap string any :=
  match acc with
  | inl e => inl e
  | inr mgf =>
      match toMongoValue value with
      | inl e => inl e
      | inr v => inr (<[ key := v ]> mgf)
      end
  end.

Definition toMongoFilter (filter : Filter) : error + gmap string any :=
  map_fold toMongoFilter_step (inr ∅) filter.

(** ** Reflected values ([helper.go])

    What [reflect] sees of an [interface{}] argument: nothing, a
    pointer, or a plain value; behind it a map with string keys, a
    struct, or something else. *)

Inductive maptype : Type :=
| MapAny        (* exactly map[string]interface{} *)
| MapNamed      (* a named map type with interface{} elements *)
| MapOf.        (* map[string]T for a concrete element type T *)

Record field : Type := {
  Name : string;
  exported : bool;               (* the name's export flag *)
  bsonTag : option string;       (* tag.Lookup("bson") *)
  jsonTag : option string;       (* tag.Lookup("json") *)
  fieldValue : any
}.

Inductive shape : Type :=
| SMap (t : maptype) (m : gmap string any)
| SStruct (fields : list field)
| SOther (v : any).

Inductive object : Type :=
| ONil
| OPtr (target : shape)
| OVal (v : shape).

(** [reflect] does not look at the spelling of a field's name to tell
    whether the field is exported: the compiler stores a flag with the
    name, set when the name starts with an upper-case letter, and
    [reflect.Value.Interface] panics on a field without it.  The flag
    is part of the field here.

    The key of a field is its [bson] tag, else its [json] tag, else
    its lower-cased name, up to the first comma. *)
Definition field_key (f : field) : string :=
  let key := strings.ToLower (Name f) in
  let key :=
    match bsonTag f with
    | Some bsonName => bsonName
    | None => match jsonTag f with
              | Some jsonName => jsonName
              | None => key
              end
    end in
  match strings.Index key "," with
  | Some i => strings.take i key
  | None => key
  end.

Fixpoint struct_fields_to_map (fields : list field) (result : gmap string any)
  : outcome (gmap string any) :=
  match fields with
  | [] => Ok result
  | f :: rest =>
      if exported f
      then struct_fields_to_map rest (<[ field_key f := fieldValue f ]> result)
      else Panic "reflect.Value.Interface: unexported field"
  end.

Definition InterfaceToMap (obj : object) : outcome (gmap string any) :=
  match obj with
  | OPtr (SStruct fields) => struct_fields_to_map fields ∅
  | OPtr (SMap MapAny m) => Ok m
  | OPtr (SMap _ _) =>
      Err (ErrInvalidInput
             (Msg "invalid map type, should be *map[string]interface{}"))
  | OPtr (SOther _) =>
      Err (ErrInvalidInput
             (Msg "invalid object type, it should be struct pointer or *map[string]interface{}"))
  | ONil | OVal _ =>
      Err (ErrInvalidInput (Msg "object should be of pointer type"))
  end.

(** [AsPtr]: a pointer is returned as it is, any other value is
    replaced by a pointer to a new zero value of its type;
    [reflect.TypeOf(nil)] is nil and calling [Kind] on it panics. *)
Definition zero_shape (s : shape) : shape :=
  match s with
  | SMap t _ => SMap t ∅
  | SStruct fields =>
      SStruct ((fun f => {| Name := Name f; exported := exported f;
                            bsonTag := bsonTag f; jsonTag := jsonTag f;
                            fieldValue := VNil |}) <$> fields)
  | SOther _ => SOther VNil
  end.

Definition AsPtr (val : object) : outcome object :=
  match val with
  | ONil => Panic "invalid memory address or nil pointer dereference"
  | OPtr _ => Ok val
  | OVal s => Ok (OPtr (zero_shape s))
  end.

(** The [slice interface{}] argument of [IterateOverSlice]. *)
Inductive sliceArg : Type :=
| NilSlice
| SliceOf (items : list object)
| NotSlice.

(** The loop of [IterateOverSlice] from index [i] on.  The callback may
    change the item it is handed (maps are shared with the slice), so it
    returns the item as it leaves it. *)
Fixpoint iterate_from (i : nat) (items : list object)
    (callback : nat → object → object * outcome unit)
  : list object * outcome unit :=
  match items with
  | [] => ([], Ok tt)
  | item :: rest =>
      match callback i item with
      | (item', Ok _) =>
          let '(rest', r) := iterate_from (S i) rest callback in
          (item' :: rest', r)
      | (item', Err e) => (item' :: rest, Err e)
      | (item', Panic w) => (item' :: rest, Panic w)
      end
  end.

Definition slice_items (slice : sliceArg) : list object :=
  match slice with
  | SliceOf items => items
  | _ => []
  end.

Definition IterateOverSlice (slice : sliceArg)
    (callback : nat → object → object * outcome unit)
  : sliceArg * outcome unit :=
  match slice with
  | NilSlice => (slice, Ok tt)
  | NotSlice => (slice, Err (ErrInvalidInput (Msg "not slice")))
  | SliceOf items =>
      let '(items', r) := iterate_from 0 items callback in
      (SliceOf items', r)
  end.

(** ** Inbound identity normalisation ([helper.go])

    Both functions work on the caller's map in place: they take the
    map and return it as they leave it, together with their result. *)

Definition invalid_hex : error :=
  ErrInvalidInput (Msg "id is a invalid hex representation of an ObjectId").

Definition not_a_string : string :=
  "interface conversion: interface {} is not string".

(** [reflect.TypeOf(v).String()] *)
Definition type_name (v : any) : string :=
  match v with
  | VNil => "<nil>"
  | VBool _ => "bool"
  | VInt _ => "int"
  | VString _ => "string"
  | VObjectId _ => "bson.ObjectId"
  | VObjectIds _ => "[]bson.ObjectId"
  | VStrings _ => "[]string"
  | VMapSS _ => "map[string]string"
  | VMap _ => "map[string]interface {}"
  | VBsonM _ => "bson.M"
  end.

Definition stringToObjectID (obj : gmap string any)
  : gmap string any * outcome unit :=
  match obj !! "id" with
  | Some id =>
      let obj := delete "id" obj in
      match id with
      | VString s =>
          if negb (bson.IsObjectIdHex s) then (obj, Err invalid_hex)
          else if negb (String.eqb (type_name id) "bson.ObjectId") then
            match bson.ObjectIdHex s with
            | Some oid => (<[ "_id" := VObjectId oid ]> obj, Ok tt)
            | None => (obj, Panic "invalid input to ObjectIdHex")
            end
          else (obj, Ok tt)
      | _ => (obj, Panic not_a_string)
      end
  | None => (obj, Ok tt)
  end.

(** The loop of [sliceToObjectID] over the tokens. *)
Fixpoint sliceToObjectID_loop (ids : list string) (bsonIds : list bson.ObjectId)
  : outcome (list bson.ObjectId) :=
  match ids with
  | [] => Ok bsonIds
  | id :: rest =>
      if negb (bson.IsObjectIdHex id) then Err invalid_hex
      else if negb (String.eqb (type_name (VString id)) "bson.ObjectId") then
        match bson.ObjectIdHex id with
        | Some oid => sliceToObjectID_loop rest (bsonIds ++ [oid])
        | None => Panic "invalid input to ObjectIdHex"
        end
      else sliceToObjectID_loop rest bsonIds
  end.

Definition sliceToObjectID (obj : gmap string any)
  : gmap string any * outcome unit :=
  match obj !! "id" with
  | Some id =>
      let obj := delete "id" obj in
      match id with
      | VString s =>
          match sliceToObjectID_loop (strings.Split s comma) [] with
          | Ok bsonIds => (<[ "_id" := VObjectIds bsonIds ]> obj, Ok tt)
          | Err e => (obj, Err e)
          | Panic w => (obj, Panic w)
          end
      | _ => (obj, Panic not_a_string)
      end
  | None => (obj, Ok tt)
  end.

(** ** The mgo driver

    The part of [gopkg.in/mgo.v2] that the repository calls, over an
    explicit store: the documents of the collection in their natural
    order and the indexes created so far.  What the server decides
    (which documents a query selects, how it sorts, when a write or an
    index is refused, how a document is decoded into a result element)
    is carried by the session. *)

Module mgo.

Record Index : Type := {
  Key : list string;
  Unique : bool;
  DropDups : bool;
  Background : bool;
  Sparse : bool;
  ExpireAfter : Z                       (* time.Duration, nanoseconds *)
}.

Record Query : Type := {
  q_filter : gmap string any;           (* Find *)
  q_sort : option string;               (* Sort *)
  q_skip : option Z;                    (* Skip *)
  q_limit : option Z                    (* Limit *)
}.

Record Session : Type := {
  selects : gmap string any → document → bool;
  sorted : string → list document → list document;
  sorted_perm : ∀ order l, sorted order l ≡ₚ l;
  write_error : list document → document → option error;
  decode : object → document → object;
  index_reply : list Index → Index → option error;
  fault : option error                  (* a failure of the connection *)
}.

Definition ErrNotFound : error := MgoErrNotFound.

Definition IsDup (err : error) : bool :=
  match err with
  | MgoLastError code msg =>
      (code =? 11000)%Z || (code =? 11001)%Z || (code =? 12582)%Z
      || ((code =? 16460)%Z && strings.Contains msg " E11000 ")
  | MgoQueryError code _ =>
      (code =? 11000)%Z || (code =? 11001)%Z || (code =? 12582)%Z
  | _ => false
  end.

Definition Find (filter : gmap string any) : Query :=
  {| q_filter := filter; q_sort := None; q_skip := None; q_limit := None |}.

Definition Sort (q : Query) (order : string) : Query :=
  {| q_filter := q_filter q; q_sort := Some order;
     q_skip := q_skip q; q_limit := q_limit q |}.

Definition Skip (q : Query) (n : Z) : Query :=
  {| q_filter := q_filter q; q_sort := q_sort q;
     q_skip := Some n; q_limit := q_limit q |}.

Definition Limit (q : Query) (n : Z) : Query :=
  {| q_filter := q_filter q; q_sort := q_sort q;
     q_skip := q_skip q; q_limit := Some n |}.

(** [Query.One]: the first selected document, [ErrNotFound] when there
    is none. *)
Definition One (s : Session) (docs : list document) (q : Query)
  : error + document :=
  match fault s with
  | Some e => inl e
  | None =>
      match List.find (selects s (q_filter q)) docs with
      | Some d => inr d
      | None => inl ErrNotFound
      end
  end.

(** [Query.All]: every selected document, sorted, skipped and capped;
    an empty result is not an error. *)
Definition All (s : Session) (docs : list document) (q : Query)
  : error + list document :=
  match fault s with
  | Some e => inl e
  | None =>
      let ds := List.filter (selects s (q_filter q)) docs in
      let ds := match q_sort q with Some o => sorted s o ds | None => ds end in
      let ds := match q_skip q with Some n => drop (Z.to_nat n) ds | None => ds end in
      let ds := match q_limit q with
                | Some n => take (Z.to_nat (Z.abs n)) ds
                | None => ds
                end in
      inr ds
  end.

Definition Insert (s : Session) (docs : list document) (doc : document)
  : list document * option error :=
  match fault s with
  | Some e => (docs, Some e)
  | None =>
      match write_error s docs doc with
      | Some e => (docs, Some e)
      | None => (docs ++ [doc], None)
      end
  end.

(** The first selected document of [docs], with what precedes and what
    follows it. *)
Fixpoint split_first (p : document → bool) (docs : list document)
  : option (list document * document * list document) :=
  match docs with
  | [] => None
  | d :: rest =>
      if p d then Some ([], d, rest)
      else match split_first p rest with
           | Some (before, x, after) => Some (d :: before, x, after)
           | None => None
           end
  end.

(** [Update(filter, bson.M{"$set": payload})] *)
Definition Update (s : Session) (docs : list document)
    (filter payload : gmap string any) : list document * option error :=
  match fault s with
  | Some e => (docs, Some e)
  | None =>
      match split_first (selects s filter) docs with
      | None => (docs, Some ErrNotFound)
      | Some (before, d, after) =>
          let d' := payload ∪ d in
          match write_error s (before ++ after) d' with
          | Some e => (docs, Some e)
          | None => (before ++ d' :: after, None)
          end
      end
  end.

Definition Remove (s : Session) (docs : list document)
    (filter : gmap string any) : list document * option error :=
  match fault s with
  | Some e => (docs, Some e)
  | None =>
      match split_first (selects s filter) docs with
      | None => (docs, Some ErrNotFound)
      | Some (before, _, after) => (before ++ after, None)
      end
  end.

Definition RemoveAll (s : Session) (docs : list document)
    (filter : gmap string any) : list document * option error :=
  match fault s with
  | Some e => (docs, Some e)
  | None => (List.filter (fun d => negb (selects s filter d)) docs, None)
  end.

(** [Collection.EnsureIndex], as far as the repository depends on it:
    the call fails with the failure of the connection or with the
    answer to the request, and an index that is accepted is recorded.
    Before it asks the server the driver checks the key and looks the
    name of the index up in its cache; these two steps are not
    modelled, so what is recorded are the requests that were accepted,
    in order: the indexes of the collection when the keys are well
    formed and no index name is asked for twice. *)
Definition EnsureIndex (s : Session) (existing : list Index) (index : Index)
  : list Index * option error :=
  match fault s with
  | Some e => (existing, Some e)
  | None =>
      match index_reply s existing index with
      | Some e => (existing, Some e)
      | None => (existing ++ [index], None)
      end
  end.

End mgo.

(** ** Repository definitions *)

(** Modelled from the spec: the interfaces [Index] and
    [RepositoryDefinition] are declared outside the excerpt; section 3
    of the specification gives their content, the method names are the
    ones [mongodb.go] calls. *)
Record Index : Type := {
  GetFields : list string;
  Unique : bool
}.

Record RepositoryDefinition : Type := {
  GetName : string;
  GetIndexes : list Index;
  IsCustomID : bool;
  EnableTTL : bool;
  GetTTL : Z;
  GetTTLAttribute : string
}.

(** ** Provisioning ([PrepareDB]) *)

(** Go's [int64] product, as [time.Duration(TTL) * time.Second]
    computes it. *)
Definition wrap64 (z : Z) : Z := ((z + 2 ^ 63) mod 2 ^ 64 - 2 ^ 63)%Z.
Definition Second : Z := 1000000000%Z.

(** The provisioning state: the indexes of the collection and the
    lines written with [log.Println]. *)
Record provision : Type := {
  existing : list mgo.Index;
  logged : list string
}.

Definition log_Println (p : provision) (line : string) : provision :=
  {| existing := existing p; logged := logged p ++ [line] |}.

Definition with_indexes (p : provision) (l : list mgo.Index) : provision :=
  {| existing := l; logged := logged p |}.

Definition declared_index (elem : Index) : mgo.Index :=
  {| mgo.Key := GetFields elem;
     mgo.Unique := Unique elem;
     mgo.DropDups := true;
     mgo.Background := true;
     mgo.Sparse := true;
     mgo.ExpireAfter := 0 |}.

Definition ttl_index (TTL : Z) (TTLField : string) : mgo.Index :=
  {| mgo.Key := [TTLField];
     mgo.Unique := false;
     mgo.DropDups := false;
     mgo.Background := true;
     mgo.Sparse := true;
     mgo.ExpireAfter := wrap64 (TTL * Second) |}.

(** [for _, elem := range indexes]; [Some err] is the early
    [return nil, err]. *)
Fixpoint PrepareDB_indexes (session : mgo.Session) (p : provision)
    (indexes : list Index) : provision * option error :=
  match indexes with
  | [] => (p, None)
  | elem :: rest =>
      match mgo.EnsureIndex session (existing p) (declared_index elem) with
      | (l, Some err) =>
          let p := with_indexes p l in
          match err with
          | MgoQueryError code msg =>
              let p :=
                if (code =? 85)%Z
                then log_Println p
                       ("WARN: The index already exists and will not be updated. MongoDB error: " +:+ msg)
                else p in
              PrepareDB_indexes session p rest
          | _ =>
              (log_Println p "ERROR: while creating index.", Some err)
          end
      | (l, None) => PrepareDB_indexes session (with_indexes p l) rest
      end
  end.

Definition PrepareDB (session : mgo.Session) (p : provision)
    (indexes : list Index) (enableTTL : bool) (TTL : Z) (TTLField : string)
  : provision * outcome unit :=
  match PrepareDB_indexes session p indexes with
  | (p, Some err) => (p, Err err)
  | (p, None) =>
      if enableTTL then
        if String.eqb TTLField "" then
          (p, Err (ErrBackendError (Msg "TTL attribute is reqired when TTL is enabled")))
        else if (TTL =? 0)%Z then
          (p, Err (ErrBackendError (Msg "TTL value is missing and must be greater than zero")))
        else
          match mgo.EnsureIndex session (existing p) (ttl_index TTL TTLField) with
          | (l, Some err) => (with_indexes p l, Err err)
          | (l, None) => (with_indexes p l, Ok tt)
          end
      else (p, Ok tt)
  end.

(** ** Building a repository ([MongoDBRepoBuilder]) *)

(** What [backend.GetFromContext(MONGO_CTX_KEY)] finds. *)
Inductive contextValue : Type :=
| NoValue
| SessionValue (s : mgo.Session)
| OtherValue.

(** Modelled from the spec: the interface [Backend] is declared outside
    the excerpt; section 3 gives it a keyed store for the live session
    and a configuration with the database name. *)
Record Backend : Type := {
  GetFromContext : string → contextValue;
  DatabaseName : string
}.

Record MongoSession : Type := {
  Session : mgo.Session;
  repoDef : RepositoryDefinition;
  databaseName : string;
  collectionName : string
}.

Definition MONGO_CTX_KEY : string := "MONGO_SESSION".

Definition MongoDBRepoBuilder (repoDef : RepositoryDefinition) (backend : Backend)
    (p : provision) : provision * outcome MongoSession :=
  match GetFromContext backend MONGO_CTX_KEY with
  | NoValue => (p, Err (ErrBackendError (Msg "mongo session not configured")))
  | OtherValue => (p, Err (ErrBackendError (Msg "unknown session type")))
  | SessionValue session =>
      let databaseName := DatabaseName backend in
      if String.eqb databaseName "" then
        (p, Err (ErrBackendError (Msg "database name is missing and required")))
      else
        let collectionName := GetName repoDef in
        if String.eqb collectionName "" then
          (p, Err (ErrBackendError (Msg "collection name is missing and required")))
        else
          match PrepareDB session p (GetIndexes repoDef) (EnableTTL repoDef)
                  (GetTTL repoDef) (GetTTLAttribute repoDef) with
          | (p, Ok _) =>
              (p, Ok {| Session := session; repoDef := repoDef;
                        databaseName := databaseName;
                        collectionName := collectionName |})
          | (p, Err err) => (p, Err err)
          | (p, Panic w) => (p, Panic w)
          end
  end.

(** ** The repository operations ([mongodb.go])

    An operation runs against the caller's filter, which it may change
    in place, and the documents of the collection. *)

Record world : Type := {
  caller_filter : Filter;
  stored : list document
}.

Definition M (A : Type) : Type := world → world * outcome A.

#[export] Instance M_ret : MRet M := λ A a w, (w, Ok a).

#[export] Instance M_bind : MBind M := λ A B k m w,
  match m w with
  | (w', Ok a) => k a w'
  | (w', Err e) => (w', Err e)
  | (w', Panic why) => (w', Panic why)
  end.

Definition fail {A} (e : error) : M A := λ w, (w, Err e).

Definition lift {A} (o : outcome A) : M A := λ w, (w, o).

Definition get_filter : M Filter := λ w, (w, Ok (caller_filter w)).

(** Runs one of the helpers of [helper.go] on the filter. *)
Definition on_filter {A} (f : gmap string any → gmap string any * outcome A) : M A :=
  λ w, let '(m, r) := f (caller_filter w) in ({| caller_filter := m; stored := stored w |}, r).

(** Rewrites the error a computation returns, as in
    [return nil, ErrInvalidInput(err)]. *)
Definition wrapping {A} (f : error → error) (m : M A) : M A :=
  λ w, match m w with
       | (w', Err e) => (w', Err (f e))
       | r => r
       end.

(** A read of the collection. *)
Definition reading {A} (f : list document → error + A) : M (error + A) :=
  λ w, (w, Ok (f (stored w))).

(** A write to the collection. *)
Definition writing (f : list document → list document * option error)
  : M (option error) :=
  λ w, let '(ds, r) := f (stored w) in ({| caller_filter := caller_filter w; stored := ds |}, Ok r).

(** [err == mgo.ErrNotFound] *)
Definition is_ErrNotFound (err : error) : bool :=
  match err with MgoErrNotFound => true | _ => false end.

(** The Go runtime and [encoding/json]: the identifier that
    [bson.NewObjectId()] returns, the error of [json.Marshal] on a map
    if any, and what [json.Unmarshal] of the marshalled map makes of
    the target. *)
Class Runtime : Type := {
  NewObjectId : bson.ObjectId;
  json_Marshal : gmap string any → option error;
  json_Unmarshal : gmap string any → object → object
}.

Section Repository.

Context `{RT : Runtime}.

Definition MapToInterface (obj : gmap string any) (result : object)
  : outcome object :=
  match json_Marshal obj with
  | Some err => Err err
  | None => Ok (json_Unmarshal obj result)
  end.

Definition not_an_ObjectId : string :=
  "interface conversion: interface {} is not bson.ObjectId".

(** Outbound identity normalisation of [GetOne]:
    [record["_id"].(bson.ObjectId).Hex()] stored under [_id] or [id]. *)
Definition GetOne_identity (customID : bool) (record : gmap string any)
  : outcome (gmap string any) :=
  match record !! "_id" with
  | Some (VObjectId oid) =>
      if customID then Ok (<[ "_id" := VString (bson.Hex oid) ]> record)
      else Ok (<[ "id" := VString (bson.Hex oid) ]> record)
  | _ => Panic not_an_ObjectId
  end.

Definition GetOne (s : MongoSession) (result : object) : M object :=
  (if negb (IsCustomID (repoDef s)) then on_filter stringToObjectID
   else mret tt) ;;
  filter ← get_filter;
  found ← reading (λ docs, mgo.One (Session s) docs (mgo.Find filter));
  match found with
  | inl err =>
      if is_ErrNotFound err then fail err
      else fail err
  | inr record =>
      record ← lift (GetOne_identity (IsCustomID (repoDef s)) record);
      lift (MapToInterface record result)
  end.

(** The callback that [GetAll] hands to [IterateOverSlice]. *)
Definition GetAll_item (customID : bool) (i : nat) (item : object)
  : object * outcome unit :=
  let on_map (rebuild : shape → object) (t : maptype) (m : gmap string any) :=
    match m !! "_id" with
    | Some (VObjectId bsonID) =>
        let idStr := bson.Hex bsonID in
        match t with
        | MapOf =>
            (item, Panic "reflect.Value.SetMapIndex: value of type string is not assignable to type bson.ObjectId")
        | _ =>
            if customID
            then (rebuild (SMap t (<[ "_id" := VString idStr ]> m)), Ok tt)
            else (rebuild (SMap t (delete "_id" (<[ "id" := VString idStr ]> m))), Ok tt)
        end
    | _ => (item, Ok tt)
    end in
  match item with
  | ONil => (item, Ok tt)
  | OPtr (SMap t m) => on_map OPtr t m
  | OVal (SMap t m) => on_map OVal t m
  | OPtr _ | OVal _ => (item, Ok tt)
  end.

(** The identity part of [GetAll]: one id or a comma-separated list. *)
Definition GetAll_identity : M unit :=
  filter ← get_filter;
  match filter !! "id" with
  | Some id =>
      match id with
      | VString s =>
          if strings.Contains s ","
          then wrapping (λ err, ErrInvalidInput (Cause err)) (on_filter sliceToObjectID)
          else wrapping (λ err, ErrInvalidInput (Cause err)) (on_filter stringToObjectID)
      | _ => lift (Panic not_a_string)
      end
  | None => mret tt
  end.

Definition GetAll_query (mongoFilter : gmap string any)
    (order sorting : string) (limit offset : Z) : mgo.Query :=
  let query := mgo.Find mongoFilter in
  let query :=
    if negb (String.eqb order "") then
      let order := if String.eqb sorting "desc" then "-" +:+ order else order in
      mgo.Sort query order
    else query in
  let query := if negb (offset =? 0)%Z then mgo.Skip query offset else query in
  if negb (limit =? 0)%Z then mgo.Limit query limit else query.

Definition GetAll (s : MongoSession) (resultsTypeHint : object)
    (order sorting : string) (limit offset : Z) : M (list object) :=
  resultsTypeHint ← lift (AsPtr resultsTypeHint);
  (if negb (IsCustomID (repoDef s)) then GetAll_identity else mret tt) ;;
  filter ← get_filter;
  match toMongoFilter filter with
  | inl err => fail (ErrInvalidInput (Cause err))
  | inr mongoFilter =>
      let query := GetAll_query mongoFilter order sorting limit offset in
      found ← reading (λ docs, mgo.All (Session s) docs query);
      match found with
      | inl err =>
          if is_ErrNotFound err then fail (ErrNotFound (Cause err))
          else fail err
      | inr selected =>
          let results := mgo.decode (Session s) resultsTypeHint <$> selected in
          let '(slice, r) := IterateOverSlice (SliceOf results)
                               (GetAll_item (IsCustomID (repoDef s))) in
          match r with
          | Panic why => lift (Panic why)
          | _ => mret (slice_items slice)   (* the error is dropped *)
          end
      end
  end.

Definition already_exists : error :=
  ErrAlreadyExists (Msg "record already exists!").

(** [Save] with a nil filter. *)
Definition Save_insert (s : MongoSession) (obj : object)
    (payload : gmap string any) : M object :=
  let id := NewObjectId in
  let payload := <[ "_id" := VObjectId id ]> payload in
  let payload :=
    if negb (IsCustomID (repoDef s)) then delete "id" payload else payload in
  err ← writing (λ docs, mgo.Insert (Session s) docs payload);
  match err with
  | Some err =>
      if mgo.IsDup err then fail already_exists
      else fail err
  | None =>
      let payload :=
        if negb (IsCustomID (repoDef s))
        then <[ "id" := VString (bson.Hex id) ]> payload else payload in
      lift (MapToInterface payload obj)
  end.

(** [Save] with a filter. *)
Definition Save_update (s : MongoSession) (obj : object)
    (payload : gmap string any) : M object :=
  (if negb (IsCustomID (repoDef s))
   then wrapping (λ err, ErrInvalidInput (Cause err)) (on_filter stringToObjectID)
   else mret tt) ;;
  let payload :=
    match payload !! "_id" with
    | Some _ => delete "_id" payload
    | None => payload
    end in
  filter ← get_filter;
  err ← writing (λ docs, mgo.Update (Session s) docs filter payload);
  match err with
  | Some err =>
      if is_ErrNotFound err then fail (ErrNotFound (Cause err))
      else if mgo.IsDup err then fail already_exists
      else fail err
  | None => GetOne s obj
  end.

(** [Save(object, filter)]: [None] is the nil filter. *)
Definition Save (s : MongoSession) (obj : object) (filter : option Filter)
    (docs : list document) : option Filter * list document * outcome object :=
  match InterfaceToMap obj with
  | Err err => (filter, docs, Err err)
  | Panic why => (filter, docs, Panic why)
  | Ok payload =>
      match filter with
      | None =>
          let '(w, r) := Save_insert s obj payload
                           {| caller_filter := ∅; stored := docs |} in
          (None, stored w, r)
      | Some f =>
          let '(w, r) := Save_update s obj payload
                           {| caller_filter := f; stored := docs |} in
          (Some (caller_filter w), stored w, r)
      end
  end.

Definition DeleteOne (s : MongoSession) : M unit :=
  (if negb (IsCustomID (repoDef s))
   then wrapping (λ err, ErrInvalidInput (Cause err)) (on_filter stringToObjectID)
   else mret tt) ;;
  filter ← get_filter;
  err ← writing (λ docs, mgo.Remove (Session s) docs filter);
  match err with
  | Some err =>
      if is_ErrNotFound err then fail (ErrNotFound (Cause err))
      else fail err
  | None => mret tt
  end.

Definition DeleteAll (s : MongoSession) : M unit :=
  (if negb (IsCustomID (repoDef s))
   then wrapping (λ err, ErrInvalidInput (Cause err)) (on_filter stringToObjectID)
   else mret tt) ;;
  filter ← get_filter;
  err ← writing (λ docs, mgo.RemoveAll (Session s) docs filter);
  match err with
  | Some err =>
      if is_ErrNotFound err then fail (ErrNotFound (Cause err))
      else fail err
  | None => mret tt
  end.

End Repository.

(** ** Regular expressions

    What the server does with a [$regex] on a string field, for the
    fragment that [toMongoPattern] emits from ordinary text: literal
    characters, [.], a star after a single character, [^] and [$].
    The server searches the subject for a match (the expression is not
    anchored unless it says so); without options [.] matches any
    character but a line feed, and [$] matches at the very end of the
    subject or before a line feed that ends it.  An expression that
    uses any other operator is outside the fragment. *)

Module regex.

Inductive atom : Type :=
| Lit (c : ascii)
| AnyChar.

Inductive node : Type :=
| One (a : atom)
| Star (a : atom)
| Bol
| Eol.

Definition LF : ascii := ascii_of_nat 10.

(** The characters that are operators of the expression language. *)
Definition metacharacters : string := "\^$.|?*+()[]{}".

Fixpoint occurs (c : ascii) (s : string) : bool :=
  match s with
  | EmptyString => false
  | String x s' => Ascii.eqb x c || occurs c s'
  end.

Definition meta (c : ascii) : bool := occurs c metacharacters.

Definition atom_of (c : ascii) : option atom :=
  if Ascii.eqb c "."%char then Some AnyChar
  else if meta c then None
  else Some (Lit c).

Fixpoint parse (re : string) : option (list node) :=
  match re with
  | EmptyString => Some []
  | String c rest =>
      if Ascii.eqb c "^"%char then cons Bol <$> parse rest
      else if Ascii.eqb c "$"%char then cons Eol <$> parse rest
      else
        match atom_of c with
        | None => None
        | Some a =>
            match rest with
            | String x rest' =>
                if Ascii.eqb x "*"%char then cons (Star a) <$> parse rest'
                else cons (One a) <$> parse rest
            | EmptyString => cons (One a) <$> parse rest
            end
        end
  end.

Definition accepts (a : atom) (c : ascii) : bool :=
  match a with
  | Lit x => Ascii.eqb x c
  | AnyChar => negb (Ascii.eqb c LF)
  end.

Definition at_end (s : string) : bool :=
  match s with
  | EmptyString => true
  | String c EmptyString => Ascii.eqb c LF
  | _ => false
  end.

(** Does a prefix of [s] match the nodes?  [bol] tells whether [s]
    starts at the beginning of the subject. *)
Fixpoint match_here (nodes : list node) (bol : bool) (s : string) : bool :=
  match nodes with
  | [] => true
  | Bol :: rest => bol && match_here rest bol s
  | Eol :: rest => at_end s && match_here rest bol s
  | One a :: rest =>
      match s with
      | String c s' => accepts a c && match_here rest false s'
      | EmptyString => false
      end
  | Star a :: rest =>
      (fix star (bol : bool) (s : string) : bool :=
         match_here rest bol s
         || match s with
            | String c s' => accepts a c && star false s'
            | EmptyString => false
            end) bol s
  end.

Fixpoint search (nodes : list node) (bol : bool) (s : string) : bool :=
  match_here nodes bol s
  || match s with
     | String _ s' => search nodes false s'
     | EmptyString => false
     end.

(** [None]: the expression is outside the fragment. *)
Definition matches (re subject : string) : option bool :=
  (λ nodes, search nodes true subject) <$> parse re.

End regex.

(** ** A reference session

    A small engine for the examples: a query selects a document when
    every field of the query holds the same scalar in the document;
    nothing is sorted, no write is refused, a document is decoded into
    a map as it is and into a struct field by field.  The answer to
    index creation is a parameter. *)

Definition scalar_eqb (a b : any) : bool :=
  match a, b with
  | VBool x, VBool y => Bool.eqb x y
  | VInt x, VInt y => (x =? y)%Z
  | VString x, VString y => String.eqb x y
  | VObjectId x, VObjectId y => String.eqb x y
  | _, _ => false
  end.

Definition reference_selects (query : gmap string any) (d : document) : bool :=
  forallb (λ kv, match d !! kv.1 with
                 | Some v => scalar_eqb kv.2 v
                 | None => false
                 end) (map_to_list query).

Definition decode_field (d : document) (f : field) : field :=
  {| Name := Name f; exported := exported f;
     bsonTag := bsonTag f; jsonTag := jsonTag f;
     fieldValue := default VNil (d !! field_key f) |}.

Definition reference_decode (hint : object) (d : document) : object :=
  match hint with
  | OPtr (SMap t _) => OPtr (SMap t d)
  | OPtr (SStruct fields) => OPtr (SStruct (decode_field d <$> fields))
  | _ => hint
  end.

Definition reference_session (reply : list mgo.Index → mgo.Index → option error)
  : mgo.Session :=
  {| mgo.selects := reference_selects;
     mgo.sorted := λ _ l, l;
     mgo.sorted_perm := λ _ l, reflexivity l;
     mgo.write_error := λ _ _, None;
     mgo.decode := reference_decode;
     mgo.index_reply := reply;
     mgo.fault := None |}.

Definition accepting : list mgo.Index → mgo.Index → option error := λ _ _, None.

(** What a value is after [json.Marshal] and [json.Unmarshal]: an
    ObjectId is written as its hexadecimal text and read back as a
    string. *)
Definition json_value (v : any) : any :=
  match v with
  | VObjectId id => VString (bson.Hex id)
  | VObjectIds ids => VStrings (bson.Hex <$> ids)
  | _ => v
  end.

(** The runtime of the examples: one fixed new identifier, a
    [json.Marshal] that never fails, and a [json.Unmarshal] that sets
    the decoded entries on the target map, whose other entries stay.
    It stands in for [encoding/json] on flat documents; the properties
    below hold for every runtime and none of them states what this
    one decodes. *)
Definition reference_runtime : Runtime :=
  {| NewObjectId := "000000000001";
     json_Marshal := λ _, None;
     json_Unmarshal := λ m target,
       match target with
       | OPtr (SMap t old) => OPtr (SMap t ((json_value <$> m) ∪ old))
       | OPtr (SStruct fields) =>
           OPtr (SStruct (decode_field (json_value <$> m) <$> fields))
       | _ => target
       end |}.

Definition reference_definition (customID : bool) : RepositoryDefinition :=
  {| GetName := "users"; GetIndexes := []; IsCustomID := customID;
     EnableTTL := false; GetTTL := 0; GetTTLAttribute := "" |}.

Definition reference_repository (customID : bool) : MongoSession :=
  {| Session := reference_session accepting;
     repoDef := reference_definition customID;
     databaseName := "db"; collectionName := "users" |}.

Definition no_indexes : provision := {| existing := []; logged := [] |}.

(** ** Statements used by the properties *)

(** Inbound normalisation of the one-field map [{id: h}] followed by
    the outbound normalisation of [GetOne], on a repository without
    custom ids: the public [id] that comes back. *)
Definition identity_round_trip (h : string) : outcome (option any) :=
  match stringToObjectID {[ "id" := VString h ]} with
  | (m, Ok _) =>
      match GetOne_identity false m with
      | Ok record => Ok (record !! "id")
      | Err e => Err e
      | Panic why => Panic why
      end
  | (_, Err e) => Err e
  | (_, Panic why) => Panic why
  end.

(** Some entry of a comma-separated list of ids is not the hexadecimal
    form of an identifier. *)
Definition malformed_entry (s : string) : Prop :=
  ∃ t, t ∈ strings.Split s comma ∧ bson.IsObjectIdHex t = false.

(** The filter as an operation queries with it: normalised in place
    unless the repository has custom ids. *)
Definition normalised_to (customID : bool) (f f' : Filter) : Prop :=
  (if customID then (f, Ok tt) else stringToObjectID f) = (f', Ok tt).

(** The query selects none of the documents. *)
Definition selects_none (session : mgo.Session) (query : gmap string any)
    (ds : list document) : Prop :=
  ∀ d, d ∈ ds → mgo.selects session query d = false.

(** The value that a result element holds under a key: a map entry, or
    the struct field stored under that key. *)
Definition element_field (o : object) (key : string) : option any :=
  match o with
  | ONil => None
  | OPtr (SMap _ m) | OVal (SMap _ m) => m !! key
  | OPtr (SStruct fields) | OVal (SStruct fields) =>
      fieldValue <$> List.find (λ f, String.eqb (field_key f) key) fields
  | OPtr (SOther _) | OVal (SOther _) => None
  end.

(** Outbound normalisation in the specification's words: the internal
    key [_id] is rewritten to the public hexadecimal [id], or to its
    hexadecimal form under [_id] on a repository with custom ids. *)
Definition spec_identity_normalised (customID : bool) (before after : object)
  : Prop :=
  ∀ oid, element_field before "_id" = Some (VObjectId oid) →
    if customID
    then element_field after "_id" = Some (VString (bson.Hex oid))
    else element_field after "id" = Some (VString (bson.Hex oid)).

(** What [GetAll] does to one decoded element. *)
Definition rewritten_map (customID : bool) (m : gmap string any)
    (oid : bson.ObjectId) : gmap string any :=
  if customID then <[ "_id" := VString (bson.Hex oid) ]> m
  else delete "_id" (<[ "id" := VString (bson.Hex oid) ]> m).

Definition GetAll_normalised (customID : bool) (before after : object) : Prop :=
  match before with
  | OPtr (SMap t m) =>
      match m !! "_id" with
      | Some (VObjectId oid) =>
          t ≠ MapOf ∧ after = OPtr (SMap t (rewritten_map customID m oid))
      | _ => after = before
      end
  | OVal (SMap t m) =>
      match m !! "_id" with
      | Some (VObjectId oid) =>
          t ≠ MapOf ∧ after = OVal (SMap t (rewritten_map customID m oid))
      | _ => after = before
      end
  | _ => after = before
  end.

(** A struct type with an identifier and a name, and a stored document
    for it. *)
Definition user_struct : object :=
  OVal (SStruct [ {| Name := "ID"; exported := true;
                     bsonTag := Some "_id"; jsonTag := Some "id";
                     fieldValue := VNil |};
                  {| Name := "Name"; exported := true;
                     bsonTag := Some "name"; jsonTag := None;
                     fieldValue := VNil |} ]).

Definition user_hint : object :=
  OPtr (SStruct [ {| Name := "ID"; exported := true;
                     bsonTag := Some "_id"; jsonTag := Some "id";
                     fieldValue := VNil |};
                  {| Name := "Name"; exported := true;
                     bsonTag := Some "name"; jsonTag := None;
                     fieldValue := VNil |} ]).

Definition ann_id : bson.ObjectId := "000000000001".

Definition ann : document :=
  {[ "_id" := VObjectId ann_id; "name" := VString "ann" ]}.

Definition ann_as_struct : object :=
  OPtr (SStruct [ {| Name := "ID"; exported := true;
                     bsonTag := Some "_id"; jsonTag := Some "id";
                     fieldValue := VObjectId ann_id |};
                  {| Name := "Name"; exported := true;
                     bsonTag := Some "name"; jsonTag := None;
                     fieldValue := VString "ann" |} ]).

(** A server that refuses every index with the same error, a declared
    unique index, and a backend that holds a session. *)
Definition refusing (err : error) : list mgo.Index → mgo.Index → option error :=
  λ _ _, Some err.

Definition by_email : Index := {| GetFields := ["email"]; Unique := true |}.

Definition reference_backend (session : mgo.Session) : Backend :=
  {| GetFromContext := λ key,
       if String.eqb key MONGO_CTX_KEY then SessionValue session else NoValue;
     DatabaseName := "db" |}.

Definition users_by_email (enableTTL : bool) (TTL : Z) (TTLField : string)
  : RepositoryDefinition :=
  {| GetName := "users"; GetIndexes := [by_email]; IsCustomID := false;
     EnableTTL := enableTTL; GetTTL := TTL; GetTTLAttribute := TTLField |}.

Definition key_specs_conflict : error :=
  MgoQueryError 86 "index key specs conflict".

(** The native value of a filter value, when translation accepts it. *)
Definition translated (v : any) : option any :=
  match toMongoValue v with
  | inr v' => Some v'
  | inl _ => None
  end.

(** Ordinary text: no wildcard, no NUL, no operator of the expression
    language. *)
Definition plain (c : ascii) : bool :=
  negb (regex.meta c) && negb (Ascii.eqb c percent) && negb (Ascii.eqb c NUL).

Fixpoint plain_text (p : string) : bool :=
  match p with
  | EmptyString => true
  | String c p' => plain c && plain_text p'
  end.

(** A rune that the loop of [toMongoPattern] copies as it is: neither
    the wildcard nor NUL. *)
Definition copied (r : utf8.rune) : Prop :=
  N.eqb r (utf8.rune_of percent) = false ∧ N.eqb r (utf8.rune_of NUL) = false.

(** The nodes of a literal text. *)
Fixpoint literal (p : string) : list regex.node :=
  match p with
  | EmptyString => []
  | String c p' => regex.One (regex.Lit c) :: literal p'
  end.

(** The specification's exact match: the expression matches the
    literal [p] and no other string. *)
Definition exact_match (re p : string) : Prop :=
  ∀ subject, regex.matches re subject = Some true ↔ subject = p.

(** ** The remaining helpers of [helper.go] *)

(** [contains]: the slice holds pointers to strings; [None] is a nil
    pointer, whose dereference panics. *)
Fixpoint contains (s : list (option string)) (item : string) : outcome bool :=
  match s with
  | [] => Ok false
  | a :: rest =>
      match a with
      | None => Panic "invalid memory address or nil pointer dereference"
      | Some str => if String.eqb str item then Ok true else contains rest item
      end
  end.

(** ** Statements used by the further properties *)

(** The window that the sort, skip and limit arguments of [GetAll]
    describe: sorted when a sort field is given (descending for
    ["desc"]), without the first [offset] documents, cut to [limit]
    documents unless [limit] is zero. *)
Definition page (session : mgo.Session) (order sorting : string)
    (limit offset : Z) (ds : list document) : list document :=
  let ds :=
    if String.eqb order "" then ds
    else mgo.sorted session
           (if String.eqb sorting "desc" then "-" +:+ order else order) ds in
  let ds := drop (Z.to_nat offset) ds in
  if (limit =? 0)%Z then ds else take (Z.to_nat (Z.abs limit)) ds.

(** The document that [Save] hands to the driver in insert mode: the
    payload with the new identifier under [_id] and, unless the
    repository has custom ids, without [id]. *)
Definition inserted_document `{RT : Runtime} (customID : bool)
    (payload : gmap string any) : document :=
  let payload := <[ "_id" := VObjectId NewObjectId ]> payload in
  if negb customID then delete "id" payload else payload.


(** ASCII text: every byte is below [0x80] and is a rune of its own. *)
Definition ascii_char (c : ascii) : bool := (N_of_ascii c <? 128)%N.

Fixpoint ascii_text (s : string) : bool :=
  match s with
  | EmptyString => true
  | String c s' => ascii_char c && ascii_text s'
  end.

(** A field whose key does not depend on letters outside ASCII: it
    has a tag, or its name is ASCII text. *)
Definition ascii_keyed (f : field) : Prop :=
  bsonTag f = None → jsonTag f = None → ascii_text (Name f) = true.

(** Text without an operator of the expression language and without
    NUL; unlike [plain_text] it may hold [%]. *)
Definition ordinary (c : ascii) : bool :=
  negb (regex.meta c) && negb (Ascii.eqb c NUL).

Fixpoint ordinary_text (p : string) : bool :=
  match p with
  | EmptyString => true
  | String c p' => ordinary c && ordinary_text p'
  end.

(** The pattern that stands for a literal text: every [%] doubled. *)
Fixpoint escape (p : string) : string :=
  match p with
  | EmptyString => EmptyString
  | String c p' =>
      if Ascii.eqb c percent then String percent (String percent (escape p'))
      else String c (escape p')
  end.

(** * Properties *)

(** ** Hexadecimal identities *)

Lemma fromHexChar_digit (c : ascii) (n : N) :
  hex.fromHexChar c = Some n → (n < 16)%N ∧ hex.digit n = strings.lower c.
Proof.
  destruct c as [b0 b1 b2 b3 b4 b5 b6 b7].
  destruct b0, b1, b2, b3, b4, b5, b6, b7; vm_compute;
    intros [= <-]; split; reflexivity.
Qed.

Lemma byte_nibbles (a b : N) :
  (a < 16)%N → (b < 16)%N →
  N.shiftr (N_of_ascii (ascii_of_N (N.lor (N.shiftl a 4) b))) 4 = a
  ∧ N.land (N_of_ascii (ascii_of_N (N.lor (N.shiftl a 4) b))) 15 = b.
Proof.
  intros Ha Hb.
  assert (Ea : a ∈ (N.of_nat <$> seq 0 16)).
  { apply list_elem_of_fmap. exists (N.to_nat a). split; [lia|].
    apply elem_of_seq. lia. }
  assert (Eb : b ∈ (N.of_nat <$> seq 0 16)).
  { apply list_elem_of_fmap. exists (N.to_nat b). split; [lia|].
    apply elem_of_seq. lia. }
  cbn in Ea, Eb.
  repeat (apply elem_of_cons in Ea as [-> | Ea]);
    try (by apply elem_of_nil in Ea);
    repeat (apply elem_of_cons in Eb as [-> | Eb]);
    try (by apply elem_of_nil in Eb); vm_compute; split; reflexivity.
Qed.

(** Induction over a string two characters at a time, as
    [hex.DecodeString] reads it. *)
Lemma string_pairs_ind (P : string → Prop) :
  P "" → (∀ c, P (String c "")) →
  (∀ c1 c2 s, P s → P (String c1 (String c2 s))) →
  ∀ s, P s.
Proof.
  intros H0 H1 H2 s.
  enough (P s ∧ ∀ c, P (String c s)) by tauto.
  induction s as [| c s [IH1 IH2]]; split; auto.
Qed.

Lemma Encode_Decode (s d : string) :
  hex.DecodeString s = Some d → hex.EncodeToString d = strings.ToLower s.
Proof.
  revert d. induction s as [| c | c1 c2 s IH] using string_pairs_ind;
    intros d; cbn.
  - by intros [= <-].
  - discriminate.
  - destruct (hex.fromHexChar c1) as [a|] eqn:E1; [|discriminate].
    destruct (hex.fromHexChar c2) as [b|] eqn:E2; [|discriminate].
    destruct (hex.DecodeString s) as [d'|] eqn:E; [|discriminate].
    intros [= <-]. cbn.
    apply fromHexChar_digit in E1 as [Ha <-], E2 as [Hb <-].
    destruct (byte_nibbles a b Ha Hb) as [-> ->].
    by rewrite (IH d').
Qed.

Lemma Decode_length (s d : string) :
  hex.DecodeString s = Some d → String.length s = (2 * String.length d)%nat.
Proof.
  revert d. induction s as [| c | c1 c2 s IH] using string_pairs_ind;
    intros d; cbn.
  - by intros [= <-].
  - discriminate.
  - destruct (hex.fromHexChar c1), (hex.fromHexChar c2); try discriminate.
    destruct (hex.DecodeString s) as [d'|] eqn:E; [|discriminate].
    intros [= <-]. cbn. rewrite (IH d'); [lia | done].
Qed.

(** A string that [IsObjectIdHex] accepts decodes to an identifier whose
    [Hex] is the string in lower case. *)
Lemma ObjectIdHex_valid (h : string) :
  bson.IsObjectIdHex h = true →
  ∃ oid, bson.ObjectIdHex h = Some oid ∧ bson.Hex oid = strings.ToLower h.
Proof.
  unfold bson.IsObjectIdHex, bson.ObjectIdHex, bson.Hex.
  destruct (Nat.eqb (String.length h) 24) eqn:L; [|discriminate].
  destruct (hex.DecodeString h) as [d|] eqn:D; [|discriminate].
  intros _. exists d.
  apply Nat.eqb_eq in L. pose proof (Decode_length _ _ D) as Hl.
  replace (Nat.eqb (String.length d) 12) with true
    by (symmetry; apply Nat.eqb_eq; lia).
  split; [done | by apply Encode_Decode].
Qed.

(** ** Identity round trip *)

Lemma identity_round_trip_valid (h : string) :
  bson.IsObjectIdHex h = true →
  identity_round_trip h = Ok (Some (VString (strings.ToLower h))).
Proof.
  intros Hh. unfold identity_round_trip, stringToObjectID.
  rewrite lookup_singleton_eq, Hh. cbn.
  destruct (ObjectIdHex_valid h Hh) as (oid & -> & Hhex).
  unfold GetOne_identity. rewrite lookup_insert_eq, lookup_insert_eq.
  by rewrite Hhex.
Qed.

(** C8, as amended: for every string [h] that [bson.IsObjectIdHex]
    accepts, inbound normalisation of [{id: h}] followed by outbound
    normalisation on a repository without custom ids yields [h] with its
    hexadecimal digits in lower case; it reproduces [h] unchanged when
    [h] is already in lower case. *)
Theorem identity_round_trip_lower (h : string) :
  bson.IsObjectIdHex h = true →
  identity_round_trip h = Ok (Some (VString (strings.ToLower h)))
  ∧ (strings.ToLower h = h → identity_round_trip h = Ok (Some (VString h))).
Proof.
  intros Hh. pose proof (identity_round_trip_valid h Hh) as E.
  split; [done | intros Hl; by rewrite Hl in E].
Qed.

Lemma identity_round_trip_lower_witness :
  bson.IsObjectIdHex "5f1e0a9b3c4d5e6f7a8b9c0d" = true
  ∧ identity_round_trip "5f1e0a9b3c4d5e6f7a8b9c0d"
    = Ok (Some (VString "5f1e0a9b3c4d5e6f7a8b9c0d")).
Proof.
  assert (bson.IsObjectIdHex "5f1e0a9b3c4d5e6f7a8b9c0d" = true) as Hh
    by (vm_compute; reflexivity).
  split; [exact Hh|].
  apply (proj2 (identity_round_trip_lower "5f1e0a9b3c4d5e6f7a8b9c0d" Hh)).
  vm_compute; reflexivity.
Defined.

(** C8, as stated, fails on an identity written with upper-case
    digits: it is accepted and comes back in lower case. *)
Lemma identity_round_trip_upper :
  bson.IsObjectIdHex "5F1E0A9B3C4D5E6F7A8B9C0D" = true
  ∧ identity_round_trip "5F1E0A9B3C4D5E6F7A8B9C0D"
    = Ok (Some (VString "5f1e0a9b3c4d5e6f7a8b9c0d"))
  ∧ identity_round_trip "5F1E0A9B3C4D5E6F7A8B9C0D"
    ≠ Ok (Some (VString "5F1E0A9B3C4D5E6F7A8B9C0D")).
Proof.
  assert (bson.IsObjectIdHex "5F1E0A9B3C4D5E6F7A8B9C0D" = true) as Hh
    by (vm_compute; reflexivity).
  rewrite (identity_round_trip_valid _ Hh).
  split; [done|]. split; [done|]. intros [=].
Qed.

(** ** Inbound normalisation on the error path *)

Lemma sliceToObjectID_loop_malformed (ids : list string) :
  (∃ t, t ∈ ids ∧ bson.IsObjectIdHex t = false) →
  ∀ bsonIds, sliceToObjectID_loop ids bsonIds = Err invalid_hex.
Proof.
  induction ids as [| id rest IH]; intros (t & Hin & Ht) acc.
  - by apply elem_of_nil in Hin.
  - cbn. destruct (bson.IsObjectIdHex id) eqn:Hid; cbn; [|done].
    destruct (ObjectIdHex_valid id Hid) as (oid & -> & _).
    apply IH. exists t. split; [|done].
    apply elem_of_cons in Hin as [-> | Hin]; [congruence | done].
Qed.

Lemma delete_id_changes (m : gmap string any) (v : any) :
  m !! "id" = Some v →
  delete "id" m ≠ m
  ∧ delete "id" m !! "id" = None
  ∧ delete "id" m !! "_id" = m !! "_id".
Proof.
  intros Hid. split; [|split].
  - intros E. rewrite <- E in Hid. by rewrite lookup_delete_eq in Hid.
  - apply lookup_delete_eq.
  - by apply lookup_delete_ne.
Qed.

(** C9, as amended: when the map binds [id] to a string,
    [stringToObjectID] returns an InvalidInput error if the string is
    a malformed hexadecimal identifier, and [sliceToObjectID] returns
    one if an entry of the comma-separated list is malformed; in both
    cases the caller's map has lost its [id], has gained no [_id], and
    so is not the map that was passed in. *)
Theorem normalisation_mutates_on_failure (m : gmap string any) (s : string) :
  m !! "id" = Some (VString s) →
  (bson.IsObjectIdHex s = false →
   stringToObjectID m = (delete "id" m, Err invalid_hex))
  ∧ (malformed_entry s →
     sliceToObjectID m = (delete "id" m, Err invalid_hex))
  ∧ error_kind invalid_hex = Some InvalidInput
  ∧ delete "id" m ≠ m
  ∧ delete "id" m !! "id" = None
  ∧ delete "id" m !! "_id" = m !! "_id".
Proof.
  intros Hid. split; [|split; [|split]].
  - intros Hs. unfold stringToObjectID. by rewrite Hid, Hs.
  - intros Hs. unfold sliceToObjectID. rewrite Hid.
    by rewrite (sliceToObjectID_loop_malformed _ Hs).
  - done.
  - by apply (delete_id_changes m (VString s)).
Qed.

Lemma normalisation_mutates_on_failure_witness :
  stringToObjectID {[ "id" := VString "xyz"; "name" := VString "ann" ]}
  = ({[ "name" := VString "ann" ]}, Err invalid_hex)
  ∧ sliceToObjectID {[ "id" := VString "xyz"; "name" := VString "ann" ]}
    = ({[ "name" := VString "ann" ]}, Err invalid_hex).
Proof.
  assert (delete "id" ({[ "id" := VString "xyz"; "name" := VString "ann" ]}
                       : gmap string any)
          = {[ "name" := VString "ann" ]}) as D.
  { by rewrite delete_insert_eq. }
  destruct (normalisation_mutates_on_failure
              {[ "id" := VString "xyz"; "name" := VString "ann" ]} "xyz")
    as (H1 & H2 & _).
  { apply lookup_insert_eq. }
  rewrite <- D. split.
  - apply H1. vm_compute; reflexivity.
  - apply H2. exists "xyz". split; [| vm_compute; reflexivity].
    cbn. constructor.
Defined.

(** C9, as stated, fails for [sliceToObjectID]: two valid identifiers
    joined by a comma are a malformed hexadecimal string, which
    [stringToObjectID] refuses, but [sliceToObjectID] reads them as a
    list, succeeds and binds [_id]. *)
Lemma sliceToObjectID_accepts_a_list :
  bson.IsObjectIdHex "303030303030303030303031,303030303030303030303032"
  = false
  ∧ stringToObjectID
      {[ "id" := VString "303030303030303030303031,303030303030303030303032" ]}
    = (∅, Err invalid_hex)
  ∧ sliceToObjectID
      {[ "id" := VString "303030303030303030303031,303030303030303030303032" ]}
    = ({[ "_id" := VObjectIds ["000000000001"; "000000000002"] ]}, Ok tt).
Proof. repeat split; vm_compute; reflexivity. Qed.

(** ** An [id] that is not a string *)

Ltac run :=
  unfold mbind, M_bind, mret, M_ret, on_filter, wrapping, lift, fail,
    get_filter, reading, writing; cbn.

Lemma stringToObjectID_not_string (f : gmap string any) (v : any) :
  f !! "id" = Some v → (∀ str, v ≠ VString str) →
  stringToObjectID f = (delete "id" f, Panic not_a_string).
Proof.
  intros Hid Hv. unfold stringToObjectID. rewrite Hid.
  destruct v; try done. by destruct (Hv s).
Qed.

Section Panics.

Context `{RT : Runtime}.
Variables (s : MongoSession) (f : Filter) (ds : list document) (v : any).
Hypothesis not_custom : IsCustomID (repoDef s) = false.
Hypothesis id_bound : f !! "id" = Some v.
Hypothesis not_string : ∀ str, v ≠ VString str.

Let w : world := {| caller_filter := f; stored := ds |}.

Lemma GetOne_panics (result : object) :
  (GetOne s result w).2 = Panic not_a_string.
Proof.
  unfold GetOne. rewrite not_custom. run.
  by rewrite (stringToObjectID_not_string f v).
Qed.

Lemma GetAll_panics (hint : object) (order sorting : string) (limit offset : Z) :
  is_panic (GetAll s hint order sorting limit offset w).2 = true
  ∧ (hint ≠ ONil →
     (GetAll s hint order sorting limit offset w).2 = Panic not_a_string).
Proof.
  unfold GetAll, GetAll_identity. rewrite not_custom. run.
  destruct hint as [| t | t]; cbn; rewrite ?id_bound.
  - split; [done | congruence].
  - destruct v; try (split; done). by destruct (not_string s0).
  - destruct v; try (split; done). by destruct (not_string s0).
Qed.

Lemma Save_update_panics (obj : object) (payload : gmap string any) :
  InterfaceToMap obj = Ok payload →
  (Save s obj (Some f) ds).2 = Panic not_a_string.
Proof.
  intros Hp. unfold Save, Save_update. rewrite Hp, not_custom. run.
  by rewrite (stringToObjectID_not_string f v).
Qed.

Lemma DeleteOne_panics : (DeleteOne s w).2 = Panic not_a_string.
Proof.
  unfold DeleteOne. rewrite not_custom. run.
  by rewrite (stringToObjectID_not_string f v).
Qed.

Lemma DeleteAll_panics : (DeleteAll s w).2 = Panic not_a_string.
Proof.
  unfold DeleteAll. rewrite not_custom. run.
  by rewrite (stringToObjectID_not_string f v).
Qed.

End Panics.

(** C4, as amended: on a repository without custom ids, for every
    filter whose [id] is not a string, inbound normalisation panics on
    its unchecked type assertion (after deleting [id]), and so do
    [GetOne], [GetAll], [DeleteOne] and [DeleteAll]; [Save] in update
    mode panics in the same way once [InterfaceToMap] has accepted the
    object to save.  No InvalidInput error is returned for the id. *)
Theorem non_string_id_panics `{RT : Runtime} (s : MongoSession) (f : Filter)
    (ds : list document) (v : any) :
  IsCustomID (repoDef s) = false →
  f !! "id" = Some v →
  (∀ str, v ≠ VString str) →
  stringToObjectID f = (delete "id" f, Panic not_a_string)
  ∧ (∀ result, (GetOne s result {| caller_filter := f; stored := ds |}).2
               = Panic not_a_string)
  ∧ (∀ hint order sorting limit offset,
       is_panic (GetAll s hint order sorting limit offset
                   {| caller_filter := f; stored := ds |}).2 = true)
  ∧ (∀ obj payload, InterfaceToMap obj = Ok payload →
       (Save s obj (Some f) ds).2 = Panic not_a_string)
  ∧ (DeleteOne s {| caller_filter := f; stored := ds |}).2 = Panic not_a_string
  ∧ (DeleteAll s {| caller_filter := f; stored := ds |}).2 = Panic not_a_string.
Proof.
  intros Hc Hid Hv. repeat split.
  - by apply (stringToObjectID_not_string f v).
  - intros result. by apply (GetOne_panics s f ds v).
  - intros. by apply (GetAll_panics s f ds v).
  - intros obj payload. by apply (Save_update_panics s f ds v).
  - by apply (DeleteOne_panics s f ds v).
  - by apply (DeleteAll_panics s f ds v).
Qed.

Lemma non_string_id_panics_witness :
  (GetOne (RT := reference_runtime) (reference_repository false)
     (OPtr (SMap MapAny ∅)) {| caller_filter := {[ "id" := VInt 5 ]}; stored := [] |}).2
  = Panic not_a_string
  ∧ (Save (RT := reference_runtime) (reference_repository false)
       (OPtr (SMap MapAny {[ "name" := VString "ann" ]}))
       (Some {[ "id" := VInt 5 ]}) []).2
    = Panic not_a_string.
Proof.
  destruct (non_string_id_panics (RT := reference_runtime)
              (reference_repository false) {[ "id" := VInt 5 ]} [] (VInt 5))
    as (_ & H1 & _ & H2 & _).
  - reflexivity.
  - apply lookup_singleton_eq.
  - intros str; discriminate.
  - split; [apply H1 | apply (H2 _ {[ "name" := VString "ann" ]}); reflexivity].
Defined.

(** C4, as stated, fails for [Save]: the object to save is converted
    before the filter is looked at, so with an object that is not a
    pointer, update mode returns an InvalidInput error and does not
    panic, whatever the filter holds under [id]. *)
Lemma Save_update_rejects_object_first :
  IsCustomID (repoDef (reference_repository false)) = false
  ∧ ({[ "id" := VInt 5 ]} : Filter) !! "id" = Some (VInt 5)
  ∧ Save (RT := reference_runtime) (reference_repository false)
      (OVal (SOther (VInt 7))) (Some {[ "id" := VInt 5 ]}) []
    = (Some {[ "id" := VInt 5 ]}, [],
       Err (ErrInvalidInput (Msg "object should be of pointer type")))
  ∧ is_panic (Save (RT := reference_runtime) (reference_repository false)
                (OVal (SOther (VInt 7))) (Some {[ "id" := VInt 5 ]}) []).2
    = false.
Proof.
  split; [reflexivity|]. split; [apply lookup_singleton_eq|].
  split; reflexivity.
Qed.

(** ** A filter that matches nothing *)

Lemma find_selects_none (session : mgo.Session) (query : gmap string any)
    (ds : list document) :
  selects_none session query ds →
  List.find (mgo.selects session query) ds = None
  ∧ List.filter (mgo.selects session query) ds = [].
Proof.
  induction ds as [| d ds IH]; intros Hn; [done|].
  cbn. rewrite (Hn d) by constructor.
  apply IH. intros d' Hd'. apply Hn. by constructor.
Qed.

(** C1, what the code does: when the normalised filter selects no
    document, [GetOne] returns the driver's own [mgo.ErrNotFound] value
    as it is; that value is none of the four kinds. *)
Theorem GetOne_not_found_is_native `{RT : Runtime} (s : MongoSession)
    (result : object) (f f' : Filter) (ds : list document) :
  mgo.fault (Session s) = None →
  normalised_to (IsCustomID (repoDef s)) f f' →
  selects_none (Session s) f' ds →
  GetOne s result {| caller_filter := f; stored := ds |}
  = ({| caller_filter := f'; stored := ds |}, Err mgo.ErrNotFound)
  ∧ error_kind mgo.ErrNotFound = None
  ∧ backend_native mgo.ErrNotFound = true.
Proof.
  intros Hf Hn Hs. split; [|done].
  unfold GetOne, normalised_to in *. run.
  destruct (IsCustomID (repoDef s)); cbn.
  - injection Hn as <-. unfold mgo.One. rewrite Hf. cbn.
    by rewrite (proj1 (find_selects_none _ _ _ Hs)).
  - rewrite Hn. cbn. unfold mgo.One. rewrite Hf. cbn.
    by rewrite (proj1 (find_selects_none _ _ _ Hs)).
Qed.

Lemma GetOne_not_found_is_native_witness :
  GetOne (RT := reference_runtime) (reference_repository false)
    (OPtr (SMap MapAny ∅))
    {| caller_filter := {[ "name" := VString "nobody" ]}; stored := [] |}
  = ({| caller_filter := {[ "name" := VString "nobody" ]}; stored := [] |},
     Err mgo.ErrNotFound).
Proof.
  apply (GetOne_not_found_is_native (RT := reference_runtime)
           (reference_repository false)).
  - reflexivity.
  - reflexivity.
  - intros d Hd. by apply elem_of_nil in Hd.
Defined.

(** The sibling path: when the translated filter selects no document,
    [GetAll] returns an empty sequence and no error. *)
Lemma GetAll_selects_none (s : MongoSession) (hint : object)
    (order sorting : string) (limit offset : Z) (f f' : Filter)
    (mongoFilter : gmap string any) (ds : list document) :
  mgo.fault (Session s) = None →
  hint ≠ ONil →
  (if negb (IsCustomID (repoDef s)) then GetAll_identity else mret tt)
    {| caller_filter := f; stored := ds |}
  = ({| caller_filter := f'; stored := ds |}, Ok tt) →
  toMongoFilter f' = inr mongoFilter →
  selects_none (Session s) mongoFilter ds →
  GetAll s hint order sorting limit offset {| caller_filter := f; stored := ds |}
  = ({| caller_filter := f'; stored := ds |}, Ok []).
Proof.
  intros Hf Hh Hid Ht Hs. unfold GetAll.
  assert (∃ p, AsPtr hint = Ok p) as [p Hp]
    by (destruct hint; cbn; eauto; done).
  unfold mbind at 1, M_bind at 1, lift at 1. rewrite Hp.
  unfold mbind at 1, M_bind at 1. rewrite Hid.
  run. rewrite Ht. cbn. unfold mgo.All. rewrite Hf.
  assert (List.filter
            (mgo.selects (Session s)
               (mgo.q_filter (GetAll_query mongoFilter order sorting limit offset)))
            ds = []) as ->.
  { replace (mgo.q_filter (GetAll_query mongoFilter order sorting limit offset))
      with mongoFilter.
    - by apply find_selects_none.
    - unfold GetAll_query.
      by destruct (negb (String.eqb order "")), (negb (offset =? 0)%Z),
        (negb (limit =? 0)%Z). }
  assert (∀ o, mgo.sorted (Session s) o [] = []) as Hsort.
  { intros o. apply Permutation_nil. symmetry. apply mgo.sorted_perm. }
  destruct (mgo.q_sort _); rewrite ?Hsort;
    destruct (mgo.q_skip _), (mgo.q_limit _);
    by rewrite ?drop_nil, ?take_nil.
Qed.

(** ** Outbound normalisation in [GetAll] *)

Lemma GetAll_item_normalised (customID : bool) (i : nat) (item : object) :
  match GetAll_item customID i item with
  | (item', Ok _) => GetAll_normalised customID item item'
  | (_, Err _) => False
  | (_, Panic _) => True
  end.
Proof.
  unfold GetAll_item, GetAll_normalised, rewritten_map.
  destruct item as [| [t m | fields | v] | [t m | fields | v]]; try done.
  - destruct (m !! "_id") as [[]|]; try done.
    destruct t, customID; done.
  - destruct (m !! "_id") as [[]|]; try done.
    destruct t, customID; done.
Qed.

Lemma iterate_GetAll_item (customID : bool) (items : list object) :
  ∀ i items' r,
    iterate_from i items (GetAll_item customID) = (items', r) →
    match r with
    | Ok _ => Forall2 (GetAll_normalised customID) items items'
    | Err _ => False
    | Panic _ => True
    end.
Proof.
  induction items as [| item rest IH]; intros i items' r; cbn.
  - intros [= <- <-]. constructor.
  - pose proof (GetAll_item_normalised customID i item) as Hitem.
    destruct (GetAll_item customID i item) as [item' [[] | e | why]];
      [| done | by intros [= <- <-]].
    destruct (iterate_from (S i) rest (GetAll_item customID))
      as [rest' r'] eqn:E.
    intros [= <- <-]. specialize (IH _ _ _ E).
    destruct r'; try done. by constructor.
Qed.

Lemma GetAll_identity_docs (customID : bool) (w w1 : world) (r : outcome unit) :
  (if negb customID then GetAll_identity else mret tt) w = (w1, r) →
  stored w1 = stored w.
Proof.
  destruct customID; cbn.
  - by intros [= <- <-].
  - unfold GetAll_identity. run.
    destruct (caller_filter w !! "id") as [[]|]; cbn;
      try (by intros [= <- <-]).
    destruct (strings.Contains s ",").
    + destruct (sliceToObjectID (caller_filter w)) as [m [[] | e | why]];
        by intros [= <- <-].
    + destruct (stringToObjectID (caller_filter w)) as [m [[] | e | why]];
        by intros [= <- <-].
Qed.

Lemma GetOne_identity_rewritten (customID : bool) (m : gmap string any)
    (oid : bson.ObjectId) :
  m !! "_id" = Some (VObjectId oid) →
  ∃ record, GetOne_identity customID m = Ok record
    ∧ rewritten_map customID m oid
      = if customID then record else delete "_id" record.
Proof.
  intros Hm. unfold GetOne_identity, rewritten_map. rewrite Hm.
  destruct customID; eauto.
Qed.

(** C2, as amended: in every successful [GetAll], each returned
    element is the decoded document after the callback of [GetAll]: an
    element that is a map holding an ObjectId under [_id] has the
    hexadecimal form stored under [id] and [_id] removed (or stored
    under [_id] on a repository with custom ids), which is the
    normalisation of [GetOne] except that [GetOne] keeps [_id] next to
    [id]; an element that is a struct, or a map without an ObjectId
    under [_id], is returned as it was decoded. *)
Theorem GetAll_normalises_maps (s : MongoSession)
    (hint : object) (order sorting : string) (limit offset : Z)
    (w w' : world) (results : list object) :
  GetAll s hint order sorting limit offset w = (w', Ok results) →
  (∃ hint' mongoFilter selected,
     AsPtr hint = Ok hint'
     ∧ toMongoFilter (caller_filter w') = inr mongoFilter
     ∧ stored w' = stored w
     ∧ mgo.All (Session s) (stored w)
         (GetAll_query mongoFilter order sorting limit offset) = inr selected
     ∧ Forall2 (GetAll_normalised (IsCustomID (repoDef s)))
         (mgo.decode (Session s) hint' <$> selected) results)
  ∧ (∀ m oid, m !! "_id" = Some (VObjectId oid) →
       ∃ record, GetOne_identity (IsCustomID (repoDef s)) m = Ok record
         ∧ rewritten_map (IsCustomID (repoDef s)) m oid
           = if IsCustomID (repoDef s) then record else delete "_id" record)
  ∧ (∀ fields after,
       GetAll_normalised (IsCustomID (repoDef s)) (OPtr (SStruct fields)) after
       → after = OPtr (SStruct fields)).
Proof.
  intros HG. split; [| split; [apply GetOne_identity_rewritten | done]].
  revert HG. unfold GetAll.
  destruct (AsPtr hint) as [hint' | e | why] eqn:Hp; [| done | done].
  unfold mbind at 1, M_bind at 1, lift at 1.
  unfold mbind at 1, M_bind at 1.
  destruct ((if negb (IsCustomID (repoDef s)) then GetAll_identity else mret tt) w)
    as [w1 [[] | e | why]] eqn:Hid; [| done | done].
  apply GetAll_identity_docs in Hid.
  run.
  destruct (toMongoFilter (caller_filter w1)) as [e | mongoFilter] eqn:Ht; [done|].
  rewrite Hid.
  destruct (mgo.All (Session s) (stored w) _) as [e | selected] eqn:Hall.
  { by destruct (is_ErrNotFound e). }
  destruct (iterate_from 0 _ _) as [items' r] eqn:Hit.
  apply iterate_GetAll_item in Hit.
  destruct r as [[] | e | why]; [| done | done].
  intros [= <- <-].
  exists hint', mongoFilter, selected. done.
Qed.

Lemma GetAll_normalises_maps_witness :
  GetAll (reference_repository false)
    (OVal (SMap MapAny ∅)) "" "" 0 0 {| caller_filter := ∅; stored := [ann] |}
  = ({| caller_filter := ∅; stored := [ann] |},
     Ok [ OPtr (SMap MapAny {[ "id" := VString (bson.Hex ann_id);
                               "name" := VString "ann" ]}) ])
  ∧ ∃ hint' mongoFilter selected,
      AsPtr (OVal (SMap MapAny ∅)) = Ok hint'
      ∧ toMongoFilter ∅ = inr mongoFilter
      ∧ [ann] = [ann]
      ∧ mgo.All (reference_session accepting) [ann]
          (GetAll_query mongoFilter "" "" 0 0) = inr selected
      ∧ Forall2 (GetAll_normalised false)
          (reference_decode hint' <$> selected)
          [ OPtr (SMap MapAny {[ "id" := VString (bson.Hex ann_id);
                                 "name" := VString "ann" ]}) ].
Proof.
  assert (GetAll (reference_repository false)
            (OVal (SMap MapAny ∅)) "" "" 0 0 {| caller_filter := ∅; stored := [ann] |}
          = ({| caller_filter := ∅; stored := [ann] |},
             Ok [ OPtr (SMap MapAny {[ "id" := VString (bson.Hex ann_id);
                                       "name" := VString "ann" ]}) ])) as HG
    by (vm_compute; reflexivity).
  split; [exact HG|].
  exact (proj1 (GetAll_normalises_maps _ _ _ _ _ _ _ _ _ HG)).
Defined.

(** C2, as stated, fails on struct elements: a document decoded into a
    struct keeps its ObjectId under [_id] and gets no hexadecimal
    [id]. *)
Lemma GetAll_leaves_structs :
  GetAll (reference_repository false)
    user_struct "" "" 0 0 {| caller_filter := ∅; stored := [ann] |}
  = ({| caller_filter := ∅; stored := [ann] |}, Ok [ann_as_struct])
  ∧ AsPtr user_struct = Ok user_hint
  ∧ mgo.decode (reference_session accepting) user_hint ann = ann_as_struct
  ∧ element_field ann_as_struct "_id" = Some (VObjectId ann_id)
  ∧ element_field ann_as_struct "id" = None
  ∧ ¬ spec_identity_normalised false ann_as_struct ann_as_struct.
Proof.
  split; [vm_compute; reflexivity|].
  split; [reflexivity|]. split; [vm_compute; reflexivity|].
  split; [reflexivity|]. split; [reflexivity|].
  intros H. specialize (H ann_id eq_refl). discriminate H.
Qed.

(** ** Provisioning *)

Lemma with_indexes_same (p : provision) : with_indexes p (existing p) = p.
Proof. by destruct p. Qed.

Lemma EnsureIndex_refused (session : mgo.Session) (existing : list mgo.Index)
    (index : mgo.Index) (err : error) :
  mgo.fault session = None →
  mgo.index_reply session existing index = Some err →
  mgo.EnsureIndex session existing index = (existing, Some err).
Proof. intros Hf Hr. unfold mgo.EnsureIndex. by rewrite Hf, Hr. Qed.

(** An index that already exists with other options (code 85) is
    logged and provisioning goes on with the next one. *)
Lemma PrepareDB_indexes_conflict (session : mgo.Session) (p : provision)
    (elem : Index) (rest : list Index) (msg : string) :
  mgo.fault session = None →
  mgo.index_reply session (existing p) (declared_index elem)
  = Some (MgoQueryError 85 msg) →
  PrepareDB_indexes session p (elem :: rest)
  = PrepareDB_indexes session
      (log_Println p
         ("WARN: The index already exists and will not be updated. MongoDB error: "
          +:+ msg)) rest.
Proof.
  intros Hf Hr. cbn [PrepareDB_indexes].
  rewrite (EnsureIndex_refused _ _ _ _ Hf Hr). by rewrite with_indexes_same.
Qed.

(** An error that is not a [*mgo.QueryError] ends provisioning. *)
Lemma PrepareDB_indexes_fatal (session : mgo.Session) (p : provision)
    (elem : Index) (rest : list Index) (err : error) :
  mgo.fault session = None →
  mgo.index_reply session (existing p) (declared_index elem) = Some err →
  (∀ code msg, err ≠ MgoQueryError code msg) →
  PrepareDB_indexes session p (elem :: rest)
  = (log_Println p "ERROR: while creating index.", Some err).
Proof.
  intros Hf Hr Hq. cbn [PrepareDB_indexes].
  rewrite (EnsureIndex_refused _ _ _ _ Hf Hr), with_indexes_same.
  destruct err; try done. by destruct (Hq code msg).
Qed.

(** C3, what the code does: an index-creation error that is a
    [*mgo.QueryError] with a code other than 85 is dropped without a
    log line, and provisioning goes on as if the index had been
    created. *)
Theorem PrepareDB_drops_query_errors (session : mgo.Session) (p : provision)
    (elem : Index) (rest : list Index) (code : Z) (msg : string) :
  mgo.fault session = None →
  mgo.index_reply session (existing p) (declared_index elem)
  = Some (MgoQueryError code msg) →
  code ≠ 85%Z →
  PrepareDB_indexes session p (elem :: rest) = PrepareDB_indexes session p rest
  ∧ PrepareDB session p [elem] false 0 "" = (p, Ok tt).
Proof.
  intros Hf Hr Hc.
  assert (PrepareDB_indexes session p (elem :: rest)
          = PrepareDB_indexes session p rest) as E.
  { intros. cbn [PrepareDB_indexes].
    rewrite (EnsureIndex_refused _ _ _ _ Hf Hr), with_indexes_same.
    by destruct (Z.eqb_spec code 85). }
  split; [exact E|].
  unfold PrepareDB.
  assert (PrepareDB_indexes session p [elem] = (p, None)) as ->; [|done].
  cbn [PrepareDB_indexes].
  rewrite (EnsureIndex_refused _ _ _ _ Hf Hr), with_indexes_same.
  by destruct (Z.eqb_spec code 85).
Qed.

Lemma PrepareDB_drops_query_errors_witness :
  PrepareDB (reference_session (refusing key_specs_conflict)) no_indexes
    [by_email] false 0 ""
  = (no_indexes, Ok tt).
Proof.
  apply (PrepareDB_drops_query_errors
           (reference_session (refusing key_specs_conflict)) no_indexes
           by_email [] 86 "index key specs conflict").
  - reflexivity.
  - reflexivity.
  - lia.
Defined.

(** The same at the level of the builder: a repository is returned
    although its declared index was refused and does not exist. *)
Lemma MongoDBRepoBuilder_ignores_refusal :
  ∃ repository,
    MongoDBRepoBuilder (users_by_email false 0 "")
      (reference_backend (reference_session (refusing key_specs_conflict)))
      no_indexes
    = (no_indexes, Ok repository).
Proof. eexists. reflexivity. Qed.

(** With TTL enabled, an empty field or a zero duration is a
    BackendError once the declared indexes are in place. *)
Lemma PrepareDB_ttl_rejected (session : mgo.Session) (p p' : provision)
    (indexes : list Index) (TTL : Z) (TTLField : string) :
  PrepareDB_indexes session p indexes = (p', None) →
  TTLField = "" ∨ TTL = 0%Z →
  ∃ err, PrepareDB session p indexes true TTL TTLField = (p', Err err)
         ∧ error_kind err = Some BackendError.
Proof.
  intros Hi Hbad. unfold PrepareDB. rewrite Hi.
  destruct (String.eqb_spec TTLField ""); [by eexists|].
  destruct Hbad as [? | ->]; [done|]. by eexists.
Qed.

(** C5, what the code does: with TTL enabled, a negative duration
    passes the check (which only refuses zero), and the expiry index is
    created with that negative duration; no BackendError is raised. *)
Theorem PrepareDB_accepts_negative_ttl (session : mgo.Session) (p p' : provision)
    (indexes : list Index) (TTL : Z) (TTLField : string) :
  PrepareDB_indexes session p indexes = (p', None) →
  TTLField ≠ "" →
  (TTL < 0)%Z →
  mgo.fault session = None →
  mgo.index_reply session (existing p') (ttl_index TTL TTLField) = None →
  PrepareDB session p indexes true TTL TTLField
  = (with_indexes p' (existing p' ++ [ttl_index TTL TTLField]), Ok tt).
Proof.
  intros Hi Hfield Hneg Hf Hr. unfold PrepareDB. rewrite Hi.
  destruct (String.eqb_spec TTLField ""); [done|].
  destruct (Z.eqb_spec TTL 0); [lia|].
  unfold mgo.EnsureIndex. by rewrite Hf, Hr.
Qed.

Lemma PrepareDB_accepts_negative_ttl_witness :
  PrepareDB (reference_session accepting) no_indexes [] true (-5) "createdAt"
  = ({| existing := [ttl_index (-5) "createdAt"]; logged := [] |}, Ok tt)
  ∧ mgo.ExpireAfter (ttl_index (-5) "createdAt") = (-5000000000)%Z.
Proof.
  split; [|reflexivity].
  apply (PrepareDB_accepts_negative_ttl (reference_session accepting)
           no_indexes no_indexes [] (-5) "createdAt").
  - reflexivity.
  - discriminate.
  - lia.
  - reflexivity.
  - reflexivity.
Defined.

(** ** Query translation *)

Lemma toMongoValue_error (v : any) (e : error) :
  toMongoValue v = inl e →
  e = unknown_specification
  ∧ ∃ specs, v = VMapSS specs ∧ specs !! "$pattern" = None.
Proof.
  destruct v; unfold toMongoValue; try done.
  - by destruct (_ <? _)%nat.
  - by destruct (_ <? _)%nat.
  - destruct (m !! "$pattern") eqn:E; [done|].
    intros [= <-]. eauto.
Qed.

(** The loop of [toMongoFilter], whatever the order in which the map
    is ranged over: an error exactly when some field holds a
    [map[string]string] without [$pattern], otherwise every field
    translated on its own. *)
Lemma toMongoFilter_spec (filter : Filter) :
  match toMongoFilter filter with
  | inl e =>
      e = unknown_specification
      ∧ ∃ key specs, filter !! key = Some (VMapSS specs)
                     ∧ specs !! "$pattern" = None
  | inr mgf =>
      (∀ key, mgf !! key = filter !! key ≫= translated)
      ∧ (∀ key v, filter !! key = Some v → is_Some (translated v))
  end.
Proof.
  unfold toMongoFilter.
  apply (map_fold_weak_ind (λ r (m : gmap string any),
    match r with
    | inl e =>
        e = unknown_specification
        ∧ ∃ key specs, m !! key = Some (VMapSS specs)
                       ∧ specs !! "$pattern" = None
    | inr mgf =>
        (∀ key, mgf !! key = m !! key ≫= translated)
        ∧ (∀ key v, m !! key = Some v → is_Some (translated v))
    end)).
  - split; [intros key; by rewrite !lookup_empty | intros key v].
    by rewrite lookup_empty.
  - intros i x m r Hi IH. unfold toMongoFilter_step.
    destruct r as [e | mgf].
    + destruct IH as (-> & key & specs & Hk & Hs). split; [done|].
      exists key, specs. split; [|done].
      rewrite lookup_insert_ne; [done|]. intros ->. congruence.
    + destruct IH as [IH1 IH2].
      destruct (toMongoValue x) as [e | v'] eqn:Hx.
      * apply toMongoValue_error in Hx as (-> & specs & -> & Hs).
        split; [done|]. exists i, specs. by rewrite lookup_insert_eq.
      * split.
        -- intros key. destruct (decide (i = key)) as [<- | Hne].
           ++ rewrite !lookup_insert_eq. cbn. unfold translated. by rewrite Hx.
           ++ rewrite !lookup_insert_ne by done. apply IH1.
        -- intros key v. destruct (decide (i = key)) as [<- | Hne].
           ++ rewrite lookup_insert_eq. intros [= <-].
              unfold translated. by rewrite Hx.
           ++ rewrite lookup_insert_ne by done. apply IH2.
Qed.

Lemma toMongoFilter_singleton (key : string) (v : any) :
  toMongoFilter {[ key := v ]}
  = match toMongoValue v with
    | inl e => inl e
    | inr v' => inr {[ key := v' ]}
    end.
Proof.
  unfold toMongoFilter. rewrite map_fold_singleton. cbn.
  by destruct (toMongoValue v).
Qed.

(** C6, as amended: a field whose value is a descriptor map without
    the key [$pattern] makes translation fail; a descriptor that holds
    [$pattern] is translated to the regular expression of its pattern,
    whatever other keys it holds. *)
Theorem toMongoFilter_descriptor (filter : Filter) (key : string)
    (specs : gmap string string) :
  filter !! key = Some (VMapSS specs) →
  (specs !! "$pattern" = None →
   toMongoFilter filter = inl unknown_specification)
  ∧ (∀ pattern, specs !! "$pattern" = Some pattern →
       toMongoFilter {[ key := VMapSS specs ]}
       = inr {[ key := VBsonM {[ "$regex" := VString (toMongoPattern pattern) ]} ]}
       ∧ ∀ mgf, toMongoFilter filter = inr mgf →
           mgf !! key
           = Some (VBsonM {[ "$regex" := VString (toMongoPattern pattern) ]})).
Proof.
  intros Hk. pose proof (toMongoFilter_spec filter) as Hspec. split.
  - intros Hs. destruct (toMongoFilter filter) as [e | mgf].
    + by destruct Hspec as [-> _].
    + destruct Hspec as [_ H]. destruct (H key _ Hk) as [v' Hv'].
      unfold translated in Hv'. cbn in Hv'. by rewrite Hs in Hv'.
  - intros pattern Hp. split.
    + rewrite toMongoFilter_singleton. cbn. by rewrite Hp.
    + intros mgf E. rewrite E in Hspec. destruct Hspec as [H _].
      rewrite H, Hk. cbn. unfold translated. cbn. by rewrite Hp.
Qed.

Lemma toMongoFilter_descriptor_witness :
  toMongoFilter {[ "name" := VMapSS {[ "$like" := "a%" ]} ]}
  = inl unknown_specification.
Proof.
  apply (toMongoFilter_descriptor _ "name" {[ "$like" := "a%" ]}).
  - apply lookup_singleton_eq.
  - reflexivity.
Defined.

(** C6, as stated, fails when the descriptor holds [$pattern] next to
    another key: the other key is ignored and a native query is
    returned. *)
Lemma toMongoFilter_ignores_other_keys :
  ({[ "$pattern" := "a%"; "$options" := "i" ]} : gmap string string)
    !! "$options" = Some "i"
  ∧ "$options" ≠ "$pattern"
  ∧ toMongoFilter
      {[ "name" := VMapSS {[ "$pattern" := "a%"; "$options" := "i" ]} ]}
    = inr {[ "name" := VBsonM {[ "$regex" := VString "^a.*" ]} ]}.
Proof.
  split; [reflexivity|]. split; [discriminate|].
  rewrite toMongoFilter_singleton. reflexivity.
Qed.

(** C10: a filter value of type [map[string]interface{}] is never
    read as a pattern descriptor, whether or not it holds [$pattern]:
    it raises no error and is copied to the native query as it is. *)
Theorem toMongoFilter_generic_map (filter : Filter) (key : string)
    (m : gmap string any) :
  filter !! key = Some (VMap m) →
  toMongoFilter {[ key := VMap m ]} = inr {[ key := VMap m ]}
  ∧ (∀ mgf, toMongoFilter filter = inr mgf → mgf !! key = Some (VMap m))
  ∧ (∀ e, toMongoFilter filter = inl e →
       ∃ key' specs, key' ≠ key ∧ filter !! key' = Some (VMapSS specs)
                     ∧ specs !! "$pattern" = None).
Proof.
  intros Hk. pose proof (toMongoFilter_spec filter) as Hspec.
  split; [by rewrite toMongoFilter_singleton | split].
  - intros mgf E. rewrite E in Hspec. destruct Hspec as [H _].
    by rewrite H, Hk.
  - intros e E. rewrite E in Hspec.
    destruct Hspec as (_ & key' & specs & Hk' & Hs).
    exists key', specs. split; [|done]. intros ->. congruence.
Qed.

Lemma toMongoFilter_generic_map_witness :
  toMongoFilter {[ "name" := VMap {[ "$pattern" := VString "a%" ]} ]}
  = inr {[ "name" := VMap {[ "$pattern" := VString "a%" ]} ]}.
Proof.
  apply (toMongoFilter_generic_map
           {[ "name" := VMap {[ "$pattern" := VString "a%" ]} ]} "name").
  apply lookup_singleton_eq.
Defined.

(** ** The translation on the examples of the specification *)

Example pattern_a_percent_b :
  toMongoPattern "a%b" = "^a.*b$"
  ∧ regex.matches "^a.*b$" "axyzb" = Some true
  ∧ regex.matches "^a.*b$" "ab" = Some true
  ∧ regex.matches "^a.*b$" "xab" = Some false
  ∧ regex.matches "^a.*b$" "abc" = Some false.
Proof. repeat split; reflexivity. Qed.

Example pattern_escaped_percent :
  toMongoPattern "100%%" = "^100%$"
  ∧ regex.matches "^100%$" "100%" = Some true
  ∧ regex.matches "^100%$" "100" = Some false.
Proof. repeat split; reflexivity. Qed.

Example pattern_open_ends :
  toMongoPattern "%abc%" = ".*abc.*" ∧ toMongoPattern "%" = ".*".
Proof. split; reflexivity. Qed.

(** The pattern is read rune by rune: a byte that is not UTF-8 comes
    out as the three bytes of U+FFFD. *)
Example pattern_invalid_byte :
  utf8.ValidString (String (ascii_of_N 255) "") = false
  ∧ toMongoPattern ("a" +:+ String (ascii_of_N 255) "b")
    = "^a" +:+ utf8.EncodeRune utf8.RuneError +:+ "b$"
  ∧ utf8.EncodeRune utf8.RuneError
    = String (ascii_of_N 239) (String (ascii_of_N 191) (String (ascii_of_N 189) "")).
Proof. repeat split; reflexivity. Qed.

Example comma_separated_values :
  toMongoValue (VString "x,y,z") = inr (VBsonM {[ "$in" := VStrings ["x"; "y"; "z"] ]})
  ∧ toMongoValue (VString "x") = inr (VString "x").
Proof. split; reflexivity. Qed.

(** ** Patterns without a wildcard *)

Lemma append_cons (c : ascii) (s t : string) :
  String c s +:+ t = String c (s +:+ t).
Proof. reflexivity. Qed.

Lemma append_nil_l (s : string) : "" +:+ s = s.
Proof. reflexivity. Qed.

Lemma append_assoc (s t u : string) : (s +:+ t) +:+ u = s +:+ (t +:+ u).
Proof.
  induction s as [| c s IH]; [done|]. by rewrite !append_cons, IH.
Qed.

Lemma plain_spec (c : ascii) :
  plain c = true →
  Ascii.eqb c percent = false ∧ Ascii.eqb c NUL = false
  ∧ Ascii.eqb c "^" = false ∧ Ascii.eqb c "$" = false
  ∧ Ascii.eqb c "." = false ∧ Ascii.eqb c "*" = false
  ∧ regex.atom_of c = Some (regex.Lit c).
Proof.
  destruct c as [b0 b1 b2 b3 b4 b5 b6 b7].
  destruct b0, b1, b2, b3, b4, b5, b6, b7; vm_compute; try discriminate;
    intros _; repeat split; reflexivity.
Qed.

(** Characters and runes. *)
Lemma rune_of_eqb (c d : ascii) :
  N.eqb (utf8.rune_of c) (utf8.rune_of d) = Ascii.eqb c d.
Proof.
  unfold utf8.rune_of. destruct (Ascii.eqb_spec c d) as [-> | Hcd].
  - apply N.eqb_refl.
  - apply N.eqb_neq. intros H. apply Hcd.
    by rewrite <- (ascii_N_embedding c), <- (ascii_N_embedding d), H.
Qed.

Lemma EncodeRune_ascii (c : ascii) :
  (N_of_ascii c < 128)%N → utf8.EncodeRune (utf8.rune_of c) = String c "".
Proof.
  intros Hc. unfold utf8.EncodeRune, utf8.rune_of.
  assert ((N_of_ascii c <=? 127)%N = true) as -> by (apply N.leb_le; lia).
  by rewrite ascii_N_embedding.
Qed.

Lemma runes_cons_ascii (c : ascii) (s : string) :
  (N_of_ascii c < 128)%N →
  utf8.runes (String c s) = utf8.rune_of c :: utf8.runes s.
Proof.
  intros Hc. cbn [utf8.runes]. apply N.ltb_lt in Hc. by rewrite Hc.
Qed.

(** Without a wildcard the loop copies the pattern, rune by rune. *)
Lemma toMongoPattern_loop_plain (rs : list utf8.rune) (acc : string)
    (prev : utf8.rune) :
  Forall copied rs → N.eqb prev (utf8.rune_of percent) = false →
  ∃ prev', toMongoPattern_loop rs acc prev = (acc +:+ utf8.encode rs, prev')
           ∧ N.eqb prev' (utf8.rune_of percent) = false.
Proof.
  revert acc prev. induction rs as [| r rs IH]; intros acc prev Hrs Hprev.
  - exists prev. split; [|done]. cbn. f_equal.
    induction acc as [| a acc IHa]; [done|]. by rewrite append_cons, <- IHa.
  - apply Forall_cons in Hrs as [[Hpc Hnul] Hrs].
    cbn [toMongoPattern_loop utf8.encode]. rewrite Hpc, Hprev, Hnul. cbn [negb].
    destruct (IH (acc +:+ utf8.EncodeRune r) r Hrs Hpc) as (prev' & -> & Hprev').
    exists prev'. split; [|done]. by rewrite append_assoc.
Qed.

Lemma occurs_append (c : ascii) (s t : string) :
  regex.occurs c (s +:+ t) = regex.occurs c s || regex.occurs c t.
Proof.
  induction s as [| x s IH]; [done|].
  rewrite append_cons. cbn. by rewrite IH, orb_assoc.
Qed.

Lemma plain_text_no_star (p : string) :
  plain_text p = true → regex.occurs "*" p = false.
Proof.
  induction p as [| c p IH]; [done|]. cbn.
  intros [Hc Hp]%andb_prop. destruct (plain_spec c Hc) as (_&_&_&_&_&->&_).
  by apply IH.
Qed.

Lemma HasSuffix_star (s : string) :
  strings.HasSuffix s ".*" = true → regex.occurs "*" s = true.
Proof.
  induction s as [| c s IH]; [discriminate|].
  change (strings.HasSuffix (String c s) ".*")
    with (if String.eqb (String c s) ".*" then true
          else strings.HasSuffix s ".*").
  destruct (String.eqb_spec (String c s) ".*") as [-> | _]; [done|].
  intros H. cbn. rewrite (IH H). apply orb_true_r.
Qed.

Lemma plain_text_no_char (c : ascii) (p : string) :
  plain c = false → plain_text p = true → regex.occurs c p = false.
Proof.
  intros Hc. induction p as [| x p IH]; [done|]. cbn.
  intros [Hx Hp]%andb_prop. rewrite (IH Hp), orb_false_r.
  destruct (Ascii.eqb_spec x c) as [-> | _]; [|done]. by rewrite Hc in Hx.
Qed.

(** A character below [0x80] whose rune is read from a string occurs
    in the encoding of what was read. *)
Lemma occurs_encode (c : ascii) (rs : list utf8.rune) :
  (N_of_ascii c < 128)%N → utf8.rune_of c ∈ rs →
  regex.occurs c (utf8.encode rs) = true.
Proof.
  intros Hc. induction rs as [| r rs IH]; [by intros ?%elem_of_nil|].
  intros [<- | Hin]%elem_of_cons; cbn [utf8.encode]; rewrite occurs_append.
  - rewrite (EncodeRune_ascii c Hc). cbn. by rewrite Ascii.eqb_refl.
  - rewrite (IH Hin). apply orb_true_r.
Qed.

(** Ordinary text that is well-formed UTF-8 holds neither the
    wildcard nor NUL as a rune. *)
Lemma plain_text_copied (p : string) :
  plain_text p = true → utf8.ValidString p = true →
  Forall copied (utf8.runes p).
Proof.
  intros Hp Hv%String.eqb_eq. apply Forall_forall. intros r Hr.
  split; apply N.eqb_neq; intros ->.
  - apply (occurs_encode percent) in Hr; [|done]. rewrite Hv in Hr.
    by rewrite (plain_text_no_char percent p eq_refl Hp) in Hr.
  - apply (occurs_encode NUL) in Hr; [|done]. rewrite Hv in Hr.
    by rewrite (plain_text_no_char NUL p eq_refl Hp) in Hr.
Qed.

Lemma toMongoPattern_plain (p : string) :
  plain_text p = true → utf8.ValidString p = true →
  toMongoPattern p = "^" +:+ p +:+ "$".
Proof.
  intros Hp Hv. unfold toMongoPattern.
  destruct (toMongoPattern_loop_plain (utf8.runes p) "" (utf8.rune_of NUL)
              (plain_text_copied p Hp Hv) eq_refl) as (prev & -> & Hprev).
  apply String.eqb_eq in Hv. rewrite Hprev, append_nil_l, Hv.
  assert (strings.HasPrefix p ".*" = false) as ->.
  { destruct p as [| c p]; [done|]. cbn in Hp.
    apply andb_prop in Hp as [Hc _].
    destruct (plain_spec c Hc) as (_&_&_&_&Hdot&_).
    change (strings.HasPrefix (String c p) ".*")
      with (Ascii.eqb "." c && strings.HasPrefix p "*").
    by rewrite Ascii.eqb_sym, Hdot. }
  cbn [negb].
  assert (strings.HasSuffix ("^" +:+ p) ".*" = false) as ->.
  { destruct (strings.HasSuffix ("^" +:+ p) ".*") eqn:E; [|done].
    apply HasSuffix_star in E. rewrite occurs_append in E.
    by rewrite (plain_text_no_star p Hp) in E. }
  cbn [negb]. by rewrite append_assoc.
Qed.

Lemma parse_cons (c : ascii) (rest : string) :
  regex.parse (String c rest)
  = if Ascii.eqb c "^" then cons regex.Bol <$> regex.parse rest
    else if Ascii.eqb c "$" then cons regex.Eol <$> regex.parse rest
    else match regex.atom_of c with
         | None => None
         | Some a =>
             match rest with
             | String x rest' =>
                 if Ascii.eqb x "*"
                 then cons (regex.Star a) <$> regex.parse rest'
                 else cons (regex.One a) <$> regex.parse rest
             | EmptyString => cons (regex.One a) <$> regex.parse rest
             end
         end.
Proof. reflexivity. Qed.

Lemma parse_plain (p : string) :
  plain_text p = true →
  regex.parse (p +:+ "$") = Some (literal p ++ [regex.Eol]).
Proof.
  induction p as [| c p IH]; [done|].
  cbn [plain_text]. intros [Hc Hp]%andb_prop.
  destruct (plain_spec c Hc) as (_ & _ & Hhat & Hdollar & _ & _ & Hatom).
  rewrite append_cons, parse_cons, Hhat, Hdollar, Hatom.
  specialize (IH Hp).
  destruct p as [| x p].
  - rewrite append_nil_l in *. by rewrite IH.
  - rewrite append_cons in *.
    cbn [plain_text] in Hp. apply andb_prop in Hp as [Hx _].
    destruct (plain_spec x Hx) as (_ & _ & _ & _ & _ & -> & _).
    by rewrite IH.
Qed.

Lemma at_end_spec (s : string) :
  regex.at_end s = true ↔ s = "" ∨ s = String regex.LF "".
Proof.
  destruct s as [| c [| c' s]]; cbn.
  - split; [by left | done].
  - rewrite Ascii.eqb_eq. split; [intros ->; by right | by intros [? | [= ->]]].
  - split; [done | by intros [? | ?]].
Qed.

Lemma match_literal (p : string) :
  ∀ bol s,
    regex.match_here (literal p ++ [regex.Eol]) bol s = true
    ↔ s = p ∨ s = p +:+ String regex.LF "".
Proof.
  induction p as [| c p IH]; intros bol s.
  - cbn [literal app regex.match_here]. rewrite andb_true_r, append_nil_l.
    apply at_end_spec.
  - cbn [literal app regex.match_here regex.accepts]. rewrite append_cons.
    destruct s as [| x s]; [split; [done | by intros [? | ?]]|].
    rewrite andb_true_iff, Ascii.eqb_eq, IH.
    split.
    + intros [-> [-> | ->]]; [by left | by right].
    + intros [[= -> ->] | [= -> ->]]; (split; [done|]); [by left | by right].
Qed.

Lemma search_bol_later (nodes : list regex.node) (s : string) :
  regex.search (regex.Bol :: nodes) false s = false.
Proof. induction s as [| c s IH]; [done|]. cbn. exact IH. Qed.

Lemma matches_anchored_literal (p subject : string) :
  plain_text p = true →
  regex.matches ("^" +:+ p +:+ "$") subject = Some true
  ↔ subject = p ∨ subject = p +:+ String regex.LF "".
Proof.
  intros Hp. unfold regex.matches.
  rewrite append_cons, append_nil_l, parse_cons. cbn [Ascii.eqb Bool.eqb].
  rewrite (parse_plain p Hp). cbn [fmap option_fmap option_map].
  rewrite <- (match_literal p true subject).
  assert (regex.search (regex.Bol :: literal p ++ [regex.Eol]) true subject
          = regex.match_here (literal p ++ [regex.Eol]) true subject) as ->.
  { destruct subject as [| c s]; cbn [regex.search regex.match_here andb].
    - apply orb_false_r.
    - change (regex.search (regex.Bol :: literal p ++ [regex.Eol]) false s)
        with (regex.search (regex.Bol :: (literal p ++ [regex.Eol])) false s).
      rewrite search_bol_later. apply orb_false_r. }
  split; [by intros [= ->] | by intros ->].
Qed.

(** C7, as amended: for every pattern of ordinary text (well-formed
    UTF-8 with no [%], no NUL and no operator of the expression
    language), the descriptor [{"$pattern": p}] is translated to the
    expression [^p$], which matches the literal string [p] and, besides
    [p] followed by one final line feed (which [$] accepts), no other
    string. *)
Theorem pattern_without_wildcard (p : string) :
  plain_text p = true → utf8.ValidString p = true →
  toMongoValue (VMapSS {[ "$pattern" := p ]})
  = inr (VBsonM {[ "$regex" := VString ("^" +:+ p +:+ "$") ]})
  ∧ ∀ subject,
      regex.matches ("^" +:+ p +:+ "$") subject = Some true
      ↔ subject = p ∨ subject = p +:+ String regex.LF "".
Proof.
  intros Hp Hv. split.
  - unfold toMongoValue. rewrite lookup_singleton_eq.
    by rewrite (toMongoPattern_plain p Hp Hv).
  - intros subject. by apply matches_anchored_literal.
Qed.

Lemma pattern_without_wildcard_witness :
  plain_text "ann" = true ∧ utf8.ValidString "ann" = true
  ∧ toMongoValue (VMapSS {[ "$pattern" := "ann" ]})
    = inr (VBsonM {[ "$regex" := VString "^ann$" ]})
  ∧ regex.matches "^ann$" "ann" = Some true.
Proof.
  destruct (pattern_without_wildcard "ann") as [H1 H2]; [reflexivity ..|].
  split; [reflexivity|]. split; [reflexivity|].
  split; [exact H1|]. apply H2. by left.
Defined.

(** The end-of-subject assertion also holds before a final line
    feed. *)
Lemma dollar_before_final_line_feed :
  regex.matches "^ann$" ("ann" +:+ String regex.LF "") = Some true.
Proof. reflexivity. Qed.

(** C7, as stated, fails on a pattern that holds an operator of the
    expression language: nothing is escaped, so [a.c] is translated to
    [^a.c$], which also matches [abc]. *)
Lemma pattern_with_dot_matches_more :
  strings.Contains "a.c" "%" = false
  ∧ toMongoValue (VMapSS {[ "$pattern" := "a.c" ]})
    = inr (VBsonM {[ "$regex" := VString "^a.c$" ]})
  ∧ regex.matches "^a.c$" "abc" = Some true
  ∧ "abc" ≠ "a.c"
  ∧ ¬ exact_match "^a.c$" "a.c".
Proof.
  split; [reflexivity|]. split; [reflexivity|]. split; [reflexivity|].
  split; [discriminate|].
  intros H. discriminate (proj1 (H "abc") eq_refl).
Qed.

(** * Further properties of the code *)

#[local] Set Warnings "-clear-no-such-hyp".

(** ** Identities, decoded and encoded *)

Lemma byte_digits (v : ascii) :
  hex.fromHexChar (hex.digit (N.shiftr (N_of_ascii v) 4))
  = Some (N.shiftr (N_of_ascii v) 4)
  ∧ hex.fromHexChar (hex.digit (N.land (N_of_ascii v) 15))
    = Some (N.land (N_of_ascii v) 15)
  ∧ ascii_of_N (N.lor (N.shiftl (N.shiftr (N_of_ascii v) 4) 4)
                  (N.land (N_of_ascii v) 15)) = v.
Proof.
  destruct v as [b0 b1 b2 b3 b4 b5 b6 b7].
  destruct b0, b1, b2, b3, b4, b5, b6, b7; vm_compute; repeat split.
Qed.

Lemma Decode_Encode (d : string) :
  hex.DecodeString (hex.EncodeToString d) = Some d.
Proof.
  induction d as [| v d IH]; [done|].
  cbn [hex.EncodeToString hex.DecodeString].
  destruct (byte_digits v) as (-> & -> & ->). by rewrite IH.
Qed.

Lemma Encode_length (d : string) :
  String.length (hex.EncodeToString d) = (2 * String.length d)%nat.
Proof. induction d as [| v d IH]; [done|]. cbn. rewrite IH. lia. Qed.

Lemma Hex_valid (oid : bson.ObjectId) :
  String.length oid = 12%nat →
  bson.IsObjectIdHex (bson.Hex oid) = true
  ∧ bson.ObjectIdHex (bson.Hex oid) = Some oid.
Proof.
  intros Hl. unfold bson.IsObjectIdHex, bson.ObjectIdHex, bson.Hex.
  rewrite Encode_length, Decode_Encode, Hl. done.
Qed.

(** ** Inbound normalisation on the success path *)

(** X1: when [id] holds a valid hexadecimal identity, [stringToObjectID]
    moves it: [id] is removed and [_id] is bound to the decoded
    identifier, replacing whatever [_id] held before; every other key is
    kept. *)
Theorem stringToObjectID_moves_id (m : gmap string any) (h : string) :
  m !! "id" = Some (VString h) →
  bson.IsObjectIdHex h = true →
  ∃ oid, bson.ObjectIdHex h = Some oid
    ∧ bson.Hex oid = strings.ToLower h
    ∧ stringToObjectID m = (<[ "_id" := VObjectId oid ]> (delete "id" m), Ok tt)
    ∧ ∀ key, key ≠ "id" → key ≠ "_id" →
        (stringToObjectID m).1 !! key = m !! key.
Proof.
  intros Hid Hh. destruct (ObjectIdHex_valid h Hh) as (oid & Ho & Hhex).
  exists oid. split; [done|]. split; [done|].
  assert (stringToObjectID m
          = (<[ "_id" := VObjectId oid ]> (delete "id" m), Ok tt)) as E.
  { unfold stringToObjectID. rewrite Hid, Hh. cbn. by rewrite Ho. }
  split; [done|]. intros key H1 H2. rewrite E. cbn.
  by rewrite lookup_insert_ne, lookup_delete_ne.
Qed.

Lemma stringToObjectID_moves_id_witness :
  stringToObjectID {[ "id" := VString "303030303030303030303031";
                      "name" := VString "ann" ]}
  = ({[ "_id" := VObjectId "000000000001"; "name" := VString "ann" ]}, Ok tt).
Proof.
  destruct (stringToObjectID_moves_id
              {[ "id" := VString "303030303030303030303031";
                 "name" := VString "ann" ]} "303030303030303030303031")
    as (oid & Ho & _ & E & _).
  - apply lookup_insert_eq.
  - vm_compute; reflexivity.
  - rewrite E. vm_compute in Ho. injection Ho as <-.
    vm_compute; reflexivity.
Defined.

Lemma stringToObjectID_no_id (m : gmap string any) :
  (stringToObjectID m).1 !! "id" = None.
Proof.
  unfold stringToObjectID. destruct (m !! "id") as [v|] eqn:E; [|done].
  destruct v; cbn; try apply lookup_delete_eq.
  destruct (bson.IsObjectIdHex s); cbn; [|apply lookup_delete_eq].
  destruct (bson.ObjectIdHex s); cbn; [|apply lookup_delete_eq].
  rewrite lookup_insert_ne by done. apply lookup_delete_eq.
Qed.

Lemma sliceToObjectID_no_id (m : gmap string any) :
  (sliceToObjectID m).1 !! "id" = None.
Proof.
  unfold sliceToObjectID. destruct (m !! "id") as [v|] eqn:E; [|done].
  destruct v; cbn; try apply lookup_delete_eq.
  destruct (sliceToObjectID_loop _ _); cbn; try apply lookup_delete_eq.
  rewrite lookup_insert_ne by done. apply lookup_delete_eq.
Qed.

Lemma stringToObjectID_absent (m : gmap string any) :
  m !! "id" = None → stringToObjectID m = (m, Ok tt).
Proof. intros H. unfold stringToObjectID. by rewrite H. Qed.

(** X2: whatever it returns (success, error or panic), each of the two
    helpers leaves the map without the key [id]; so a second call is
    always a successful no-op. *)
Theorem normalisation_removes_id (m : gmap string any) :
  (stringToObjectID m).1 !! "id" = None
  ∧ (sliceToObjectID m).1 !! "id" = None
  ∧ stringToObjectID (stringToObjectID m).1 = ((stringToObjectID m).1, Ok tt)
  ∧ sliceToObjectID (sliceToObjectID m).1 = ((sliceToObjectID m).1, Ok tt).
Proof.
  pose proof (stringToObjectID_no_id m) as H1.
  pose proof (sliceToObjectID_no_id m) as H2.
  split; [done|]. split; [done|]. split.
  - by apply stringToObjectID_absent.
  - unfold sliceToObjectID at 1. by rewrite H2.
Qed.

Lemma sliceToObjectID_loop_valid (ids : list string) :
  (∀ t, t ∈ ids → bson.IsObjectIdHex t = true) →
  ∀ bsonIds, ∃ oids,
    sliceToObjectID_loop ids bsonIds = Ok (bsonIds ++ oids)
    ∧ bson.Hex <$> oids = strings.ToLower <$> ids.
Proof.
  induction ids as [| id rest IH]; intros Hv acc.
  - exists []. by rewrite app_nil_r.
  - assert (bson.IsObjectIdHex id = true) as Hid by (apply Hv; constructor).
    destruct (ObjectIdHex_valid id Hid) as (oid & Ho & Hhex).
    destruct (IH (λ t Ht, Hv t (list_elem_of_further _ _ _ Ht)) (acc ++ [oid]))
      as (oids & E & Hm).
    exists (oid :: oids). cbn. rewrite Hid, Ho. cbn.
    rewrite E, <- app_assoc. cbn. by rewrite Hhex, Hm.
Qed.

(** X3: [sliceToObjectID] succeeds exactly when every entry of the
    comma-separated [id] is a valid hexadecimal identity; it then binds
    [_id] to one identifier per entry, in the order of the entries
    (the hexadecimal form of each is the entry in lower case), and
    removes [id]. *)
Theorem sliceToObjectID_all_or_nothing (m : gmap string any) (s : string) :
  m !! "id" = Some (VString s) →
  ((∀ t, t ∈ strings.Split s comma → bson.IsObjectIdHex t = true) →
   ∃ oids, sliceToObjectID m
           = (<[ "_id" := VObjectIds oids ]> (delete "id" m), Ok tt)
     ∧ bson.Hex <$> oids = strings.ToLower <$> strings.Split s comma)
  ∧ ((sliceToObjectID m).2 = Ok tt →
     ∀ t, t ∈ strings.Split s comma → bson.IsObjectIdHex t = true).
Proof.
  intros Hid. split.
  - intros Hv. destruct (sliceToObjectID_loop_valid _ Hv []) as (oids & E & Hm).
    exists oids. split; [|done]. unfold sliceToObjectID. by rewrite Hid, E.
  - intros Hok t Ht.
    destruct (bson.IsObjectIdHex t) eqn:E; [done|].
    unfold sliceToObjectID in Hok. rewrite Hid in Hok.
    rewrite (sliceToObjectID_loop_malformed _ (ex_intro _ t (conj Ht E))) in Hok.
    discriminate Hok.
Qed.

Lemma sliceToObjectID_all_or_nothing_witness :
  ∃ oids,
    sliceToObjectID
      {[ "id" := VString "303030303030303030303031,3030303030303030303030FF" ]}
    = (<[ "_id" := VObjectIds oids ]>
         (delete "id" {[ "id" := VString "303030303030303030303031,3030303030303030303030FF" ]}),
       Ok tt)
    ∧ bson.Hex <$> oids
      = [ "303030303030303030303031"; "3030303030303030303030ff" ].
Proof.
  destruct (sliceToObjectID_all_or_nothing
              {[ "id" := VString "303030303030303030303031,3030303030303030303030FF" ]}
              "303030303030303030303031,3030303030303030303030FF")
    as [H _]; [apply lookup_singleton_eq|].
  apply H. intros t Ht. vm_compute in Ht.
  apply elem_of_cons in Ht as [-> | Ht]; [vm_compute; reflexivity|].
  apply elem_of_cons in Ht as [-> | Ht]; [vm_compute; reflexivity|].
  by apply elem_of_nil in Ht.
Defined.

(** X4: outbound normalisation followed by inbound normalisation gives
    the record back: for a record without [id] whose [_id] is a
    twelve-byte identifier, the normalisation of [GetOne] adds the
    hexadecimal [id], and [stringToObjectID] on the result restores the
    record exactly. *)
Theorem outbound_then_inbound (record : gmap string any) (oid : bson.ObjectId) :
  record !! "_id" = Some (VObjectId oid) →
  record !! "id" = None →
  String.length oid = 12%nat →
  ∃ public, GetOne_identity false record = Ok public
    ∧ public !! "id" = Some (VString (bson.Hex oid))
    ∧ stringToObjectID public = (record, Ok tt).
Proof.
  intros Hoid Hid Hl. exists (<[ "id" := VString (bson.Hex oid) ]> record).
  destruct (Hex_valid oid Hl) as [Hv Ho].
  split; [unfold GetOne_identity; by rewrite Hoid|].
  split; [apply lookup_insert_eq|].
  unfold stringToObjectID. rewrite lookup_insert_eq, Hv. cbn. rewrite Ho.
  f_equal. rewrite delete_insert_eq, (delete_id record "id") by done.
  by apply insert_id.
Qed.

Lemma outbound_then_inbound_witness :
  ∃ public, GetOne_identity false ann = Ok public
    ∧ public !! "id" = Some (VString (bson.Hex ann_id))
    ∧ stringToObjectID public = (ann, Ok tt).
Proof.
  apply (outbound_then_inbound ann ann_id); reflexivity.
Defined.

(** ** Objects to canonical maps *)

Lemma HasPrefix_nil (s : string) : strings.HasPrefix s "" = true.
Proof. by destruct s. Qed.

Lemma Index_cons (c : ascii) (s : string) :
  strings.Index (String c s) ","
  = if Ascii.eqb "," c then Some 0%nat else S <$> strings.Index s ",".
Proof.
  change (strings.Index (String c s) ",")
    with (if Ascii.eqb "," c && strings.HasPrefix s "" then Some 0%nat
          else S <$> strings.Index s ",").
  by rewrite HasPrefix_nil, andb_true_r.
Qed.

Lemma Index_take (s : string) (i : nat) :
  strings.Index s "," = Some i → strings.Index (strings.take i s) "," = None.
Proof.
  revert i. induction s as [| c s IH]; intros i.
  - by intros [= <-].
  - rewrite Index_cons. destruct (Ascii.eqb "," c) eqn:Ec.
    + by intros [= <-].
    + destruct (strings.Index s ",") as [j|] eqn:Es; [|done].
      intros [= <-]. cbn [strings.take].
      by rewrite Index_cons, Ec, (IH j).
Qed.

Lemma field_key_no_comma (f : field) :
  strings.Contains (field_key f) "," = false.
Proof.
  unfold field_key.
  generalize (match bsonTag f with
              | Some bsonName => bsonName
              | None => match jsonTag f with
                        | Some jsonName => jsonName
                        | None => strings.ToLower (Name f)
                        end
              end).
  intros key. unfold strings.Contains.
  destruct (strings.Index key ",") as [i|] eqn:E.
  - by rewrite (Index_take _ _ E).
  - by rewrite E.
Qed.

Lemma struct_fields_to_map_exported (fields : list field) :
  Forall (λ f, exported f = true) fields →
  ∀ acc, ∃ m,
    struct_fields_to_map fields acc = Ok m
    ∧ dom m = list_to_set (field_key <$> fields) ∪ dom acc
    ∧ (∀ k, k ∉ field_key <$> fields → m !! k = acc !! k)
    ∧ (NoDup (field_key <$> fields) →
       ∀ f, f ∈ fields → m !! field_key f = Some (fieldValue f)).
Proof.
  induction 1 as [| f rest Hf _ IH]; intros acc.
  - exists acc. repeat split; [set_solver | intros _ f Hin].
    by apply elem_of_nil in Hin.
  - destruct (IH (<[ field_key f := fieldValue f ]> acc))
      as (m & E & Hdom & Hout & Hin).
    exists m. cbn. rewrite Hf. split; [done|]. split; [|split].
    + rewrite Hdom, dom_insert_L. set_solver.
    + intros k Hk. rewrite Hout by set_solver.
      apply lookup_insert_ne. set_solver.
    + intros Hnd g Hg. apply NoDup_cons in Hnd as [Hfresh Hnd].
      apply elem_of_cons in Hg as [-> | Hg]; [|by apply Hin].
      rewrite Hout by done. apply lookup_insert_eq.
Qed.

(** X5: for a pointer to a struct whose fields are all exported and
    have a tag or an ASCII name, [InterfaceToMap] returns a map whose
    keys are exactly the canonical keys of the fields; no key contains
    a comma (tag options are cut off); and when the keys are distinct
    every field's value is found under its key. *)
Theorem InterfaceToMap_struct (fields : list field) :
  Forall (λ f, exported f = true) fields →
  Forall ascii_keyed fields →
  ∃ m, InterfaceToMap (OPtr (SStruct fields)) = Ok m
    ∧ dom m = list_to_set (field_key <$> fields)
    ∧ (∀ k, k ∈ dom m → strings.Contains k "," = false)
    ∧ (NoDup (field_key <$> fields) →
       ∀ f, f ∈ fields → m !! field_key f = Some (fieldValue f)).
Proof.
  intros Hexp _.
  destruct (struct_fields_to_map_exported fields Hexp ∅)
    as (m & E & Hdom & _ & Hin).
  exists m. split; [done|]. rewrite dom_empty_L, union_empty_r_L in Hdom.
  split; [done|]. split; [|done].
  intros k. rewrite Hdom, elem_of_list_to_set, list_elem_of_fmap.
  intros (f & -> & _). apply field_key_no_comma.
Qed.

Lemma InterfaceToMap_struct_witness :
  ∃ m, InterfaceToMap
         (OPtr (SStruct [ {| Name := "ID"; exported := true;
                             bsonTag := Some "_id"; jsonTag := Some "id,omitempty";
                             fieldValue := VObjectId ann_id |};
                          {| Name := "Email"; exported := true;
                             bsonTag := None; jsonTag := None;
                             fieldValue := VString "ann@example.org" |} ]))
       = Ok m
    ∧ dom m = list_to_set ["_id"; "email"]
    ∧ m !! "email" = Some (VString "ann@example.org").
Proof.
  destruct (InterfaceToMap_struct
              [ {| Name := "ID"; exported := true;
                   bsonTag := Some "_id"; jsonTag := Some "id,omitempty";
                   fieldValue := VObjectId ann_id |};
                {| Name := "Email"; exported := true;
                   bsonTag := None; jsonTag := None;
                   fieldValue := VString "ann@example.org" |} ])
    as (m & E & Hdom & _ & Hin).
  - repeat constructor.
  - repeat constructor.
  - exists m. split; [exact E|]. split; [exact Hdom|].
    apply (Hin ltac:(repeat constructor; set_solver)
             {| Name := "Email"; exported := true;
                bsonTag := None; jsonTag := None;
                fieldValue := VString "ann@example.org" |}).
    repeat constructor.
Defined.

Lemma struct_fields_to_map_outcome (fields : list field) :
  ∀ acc,
    match struct_fields_to_map fields acc with
    | Ok _ => Forall (λ f, exported f = true) fields
    | Err _ => False
    | Panic _ => Exists (λ f, exported f = false) fields
    end.
Proof.
  induction fields as [| f rest IH]; intros acc; cbn; [constructor|].
  destruct (exported f) eqn:E; [|by constructor].
  specialize (IH (<[ field_key f := fieldValue f ]> acc)).
  destruct (struct_fields_to_map rest _); [by constructor | done |].
  by apply Exists_cons_tl.
Qed.

(** X6: every error of [InterfaceToMap] is of the InvalidInput kind,
    and it panics exactly on a pointer to a struct that has a field
    which is not exported. *)
Theorem InterfaceToMap_failures (obj : object) :
  (∀ e, InterfaceToMap obj = Err e → error_kind e = Some InvalidInput)
  ∧ (is_panic (InterfaceToMap obj) = true
     ↔ ∃ fields, obj = OPtr (SStruct fields)
                 ∧ Exists (λ f, exported f = false) fields).
Proof.
  split.
  - intros e. destruct obj as [| [[] m | fields | v] | sh]; cbn;
      try (by intros [= <-]); try done.
    pose proof (struct_fields_to_map_outcome fields ∅) as H.
    by destruct (struct_fields_to_map fields ∅).
  - split.
    + destruct obj as [| [[] m | fields | v] | sh]; cbn; try done.
      pose proof (struct_fields_to_map_outcome fields ∅) as H.
      destruct (struct_fields_to_map fields ∅); try done. eauto.
    + intros (fields & -> & Hex). cbn.
      pose proof (struct_fields_to_map_outcome fields ∅) as H.
      destruct (struct_fields_to_map fields ∅); try done.
      apply Exists_exists in Hex as (f & Hf & Hne).
      rewrite Forall_forall in H. specialize (H f Hf). congruence.
Qed.

Lemma InterfaceToMap_failures_witness :
  error_kind (ErrInvalidInput (Msg "object should be of pointer type"))
  = Some InvalidInput
  ∧ is_panic (InterfaceToMap
                (OPtr (SStruct [ {| Name := "secret"; exported := false;
                                    bsonTag := None; jsonTag := None;
                                    fieldValue := VInt 1 |} ])))
    = true.
Proof.
  split.
  - apply (proj1 (InterfaceToMap_failures (OVal (SOther VNil)))). reflexivity.
  - apply (proj2 (InterfaceToMap_failures _)). eexists. split; [reflexivity|].
    constructor. reflexivity.
Defined.

(** ** Iterating over a slice *)

Lemma iterate_from_all_ok (callback : nat → object → object * outcome unit)
    (items : list object) :
  ∀ i,
    (∀ j item, items !! j = Some item → (callback (i + j) item).2 = Ok tt) →
    iterate_from i items callback
    = (imap (λ j item, (callback (i + j) item).1) items, Ok tt).
Proof.
  induction items as [| item rest IH]; intros i Hok; [done|].
  cbn [iterate_from]. pose proof (Hok 0 item eq_refl) as H0.
  rewrite Nat.add_0_r in H0.
  destruct (callback i item) as [item' r] eqn:E. cbn in H0. subst r.
  rewrite (IH (S i)).
  - rewrite imap_cons, Nat.add_0_r, E. cbn. do 2 f_equal.
    apply imap_ext. intros j x _. cbn. by rewrite Nat.add_succ_r.
  - intros j x Hj. replace (S i + j)%nat with (i + S j)%nat by lia.
    by apply (Hok (S j)).
Qed.

Lemma iterate_from_stops (callback : nat → object → object * outcome unit)
    (pre : list object) (x : object) (post : list object) :
  ∀ i,
    (∀ j item, pre !! j = Some item → (callback (i + j) item).2 = Ok tt) →
    (callback (i + length pre) x).2 ≠ Ok tt →
    iterate_from i (pre ++ x :: post) callback
    = (imap (λ j item, (callback (i + j) item).1) pre
         ++ (callback (i + length pre) x).1 :: post,
       (callback (i + length pre) x).2).
Proof.
  induction pre as [| item rest IH]; intros i Hok Hbad.
  - cbn [app length iterate_from imap] in *. rewrite Nat.add_0_r in *.
    destruct (callback i x) as [x' [[] | e | why]]; cbn in *; done.
  - cbn [app iterate_from]. pose proof (Hok 0 item eq_refl) as H0.
    rewrite Nat.add_0_r in H0.
    destruct (callback i item) as [item' r] eqn:E. cbn in H0. subst r.
    cbn [length] in Hbad. rewrite Nat.add_succ_r in Hbad.
    rewrite (IH (S i)).
    + rewrite imap_cons, Nat.add_0_r, E. cbn [length fst].
      rewrite Nat.add_succ_r. cbn. do 3 f_equal.
      apply imap_ext. intros j y _. cbn. by rewrite Nat.add_succ_r.
    + intros j y Hj. replace (S i + j)%nat with (i + S j)%nat by lia.
      by apply (Hok (S j)).
    + exact Hbad.
Qed.

(** X7: when the callback succeeds on every item, [IterateOverSlice]
    calls it once on each item, in order, with the item's index, and
    returns no error. *)
Theorem IterateOverSlice_visits_all
    (callback : nat → object → object * outcome unit) (items : list object) :
  (∀ j item, items !! j = Some item → (callback j item).2 = Ok tt) →
  IterateOverSlice (SliceOf items) callback
  = (SliceOf (imap (λ j item, (callback j item).1) items), Ok tt).
Proof.
  intros Hok. unfold IterateOverSlice.
  by rewrite (iterate_from_all_ok callback items 0 Hok).
Qed.

Lemma IterateOverSlice_visits_all_witness :
  IterateOverSlice (SliceOf [OPtr (SMap MapAny ann); ann_as_struct])
    (GetAll_item true)
  = (SliceOf [ (GetAll_item true 0 (OPtr (SMap MapAny ann))).1;
               (GetAll_item true 1 ann_as_struct).1 ], Ok tt).
Proof.
  apply (IterateOverSlice_visits_all (GetAll_item true)
           [OPtr (SMap MapAny ann); ann_as_struct]).
  intros [| [| j]] item; cbn; intros [= <-]; reflexivity.
Defined.

(** X8: when the callback fails on an item (with an error or a panic),
    [IterateOverSlice] stops there and returns that failure: the items
    before it have been visited, the items after it are not touched. *)
Theorem IterateOverSlice_stops_at_failure
    (callback : nat → object → object * outcome unit)
    (pre : list object) (x : object) (post : list object) :
  (∀ j item, pre !! j = Some item → (callback j item).2 = Ok tt) →
  (callback (length pre) x).2 ≠ Ok tt →
  IterateOverSlice (SliceOf (pre ++ x :: post)) callback
  = (SliceOf (imap (λ j item, (callback j item).1) pre
              ++ (callback (length pre) x).1 :: post),
     (callback (length pre) x).2).
Proof.
  intros Hok Hbad. unfold IterateOverSlice.
  by rewrite (iterate_from_stops callback pre x post 0 Hok Hbad).
Qed.

Lemma IterateOverSlice_stops_at_failure_witness :
  IterateOverSlice
    (SliceOf [ann_as_struct; OPtr (SMap MapOf ann); OPtr (SMap MapAny ann)])
    (GetAll_item false)
  = (SliceOf [ann_as_struct; OPtr (SMap MapOf ann); OPtr (SMap MapAny ann)],
     (GetAll_item false 1 (OPtr (SMap MapOf ann))).2)
  ∧ is_panic (GetAll_item false 1 (OPtr (SMap MapOf ann))).2 = true.
Proof.
  split; [|reflexivity].
  apply (IterateOverSlice_stops_at_failure (GetAll_item false)
           [ann_as_struct] (OPtr (SMap MapOf ann)) [OPtr (SMap MapAny ann)]).
  - intros [| j] item; cbn; intros [= <-]; reflexivity.
  - discriminate.
Defined.

(** ** Membership in a slice of string pointers *)

(** X9: [contains] is decided by the first element that is a nil
    pointer or points to the item: with neither, it returns false; if
    the first such element points to the item, it returns true; if it
    is a nil pointer, the dereference panics. *)
Theorem contains_first_hit (pre : list (option string)) (item : string) :
  Forall (λ a, is_Some a) pre →
  Some item ∉ pre →
  contains pre item = Ok false
  ∧ (∀ post, contains (pre ++ Some item :: post) item = Ok true)
  ∧ (∀ post, is_panic (contains (pre ++ None :: post) item) = true).
Proof.
  induction 1 as [| a rest [str ->] _ IH]; intros Hnot.
  - cbn. by rewrite String.eqb_refl.
  - assert (String.eqb str item = false) as Hne.
    { apply String.eqb_neq. intros ->. apply Hnot. constructor. }
    destruct IH as (H1 & H2 & H3).
    { intros Hin. apply Hnot. by apply list_elem_of_further. }
    cbn. rewrite Hne. done.
Qed.

Lemma contains_first_hit_witness :
  contains [Some "a"; Some "b"] "c" = Ok false
  ∧ contains ([Some "a"; Some "b"] ++ [Some "c"; None]) "c" = Ok true
  ∧ is_panic (contains ([Some "a"; Some "b"] ++ [None; Some "c"]) "c") = true.
Proof.
  destruct (contains_first_hit [Some "a"; Some "b"] "c") as (H1 & H2 & H3).
  - repeat constructor; eauto.
  - intros H. apply elem_of_cons in H as [[=] | H].
    apply elem_of_cons in H as [[=] | H]. by apply elem_of_nil in H.
  - split; [exact H1|]. split; [apply H2 | apply H3].
Defined.

(** ** Building and provisioning *)

(** X10: [MongoDBRepoBuilder] returns a repository only when the
    backend holds a session under the context key, the database name
    and the collection name are not empty and [PrepareDB] has succeeded
    on them; the repository is bound to that session, those names and
    the definition it was built from. *)
Theorem MongoDBRepoBuilder_bound (definition : RepositoryDefinition)
    (backend : Backend) (p p' : provision) (repository : MongoSession) :
  MongoDBRepoBuilder definition backend p = (p', Ok repository) →
  GetFromContext backend MONGO_CTX_KEY = SessionValue (Session repository)
  ∧ databaseName repository = DatabaseName backend
  ∧ DatabaseName backend ≠ ""
  ∧ collectionName repository = GetName definition
  ∧ GetName definition ≠ ""
  ∧ repoDef repository = definition
  ∧ PrepareDB (Session repository) p (GetIndexes definition)
      (EnableTTL definition) (GetTTL definition) (GetTTLAttribute definition)
    = (p', Ok tt).
Proof.
  unfold MongoDBRepoBuilder.
  destruct (GetFromContext backend MONGO_CTX_KEY) as [| session |]; try done.
  destruct (String.eqb_spec (DatabaseName backend) "") as [| Hdb]; [done|].
  destruct (String.eqb_spec (GetName definition) "") as [| Hname]; [done|].
  destruct (PrepareDB session p _ _ _ _) as [p1 [[] | e | why]] eqn:E; try done.
  intros [= <- <-]. done.
Qed.

Lemma MongoDBRepoBuilder_bound_witness :
  ∃ repository,
    MongoDBRepoBuilder (users_by_email true 3600 "createdAt")
      (reference_backend (reference_session accepting)) no_indexes
    = ({| existing := [declared_index by_email; ttl_index 3600 "createdAt"];
          logged := [] |}, Ok repository)
    ∧ collectionName repository = "users"
    ∧ databaseName repository = "db".
Proof.
  eexists. split; [reflexivity|].
  destruct (MongoDBRepoBuilder_bound (users_by_email true 3600 "createdAt")
              (reference_backend (reference_session accepting)) no_indexes _ _
              eq_refl) as (_ & H1 & _ & H2 & _).
  split; [exact H2 | exact H1].
Defined.



(** X13: the expiry of the TTL index is the duration in nanoseconds as
    long as the product fits a 64-bit integer, that is for at most
    9223372036 seconds; for the next 9223372037 seconds up the product
    wraps around and the expiry is negative. *)
Theorem ttl_index_expiry (TTL : Z) (TTLField : string) :
  ((-9223372036 ≤ TTL ≤ 9223372036)%Z →
   mgo.ExpireAfter (ttl_index TTL TTLField) = (TTL * 1000000000)%Z)
  ∧ ((9223372036 < TTL ≤ 18446744073)%Z →
     mgo.ExpireAfter (ttl_index TTL TTLField) = (TTL * 1000000000 - 2 ^ 64)%Z
     ∧ (mgo.ExpireAfter (ttl_index TTL TTLField) < 0)%Z).
Proof.
  cbn [ttl_index mgo.ExpireAfter]. unfold wrap64, Second. split.
  - intros H. rewrite Z.mod_small; lia.
  - intros H.
    assert (((TTL * 1000000000 + 2 ^ 63) mod 2 ^ 64
             = TTL * 1000000000 + 2 ^ 63 - 2 ^ 64)%Z) as ->.
    { symmetry. apply (Z.mod_unique_pos _ _ 1); lia. }
    lia.
Qed.

Lemma ttl_index_expiry_witness :
  mgo.ExpireAfter (ttl_index 3600 "createdAt") = 3600000000000%Z
  ∧ (mgo.ExpireAfter (ttl_index 9223372037 "createdAt") < 0)%Z.
Proof.
  split.
  - apply (proj1 (ttl_index_expiry 3600 "createdAt")). lia.
  - apply (proj2 (ttl_index_expiry 9223372037 "createdAt")). lia.
Defined.

(** ** What the operations do to the store and to the filter *)

Ltac split_cases :=
  repeat match goal with
         | |- context [match ?x with _ => _ end] => destruct x eqn:?; cbn
         | |- context [if ?b then _ else _] => destruct b eqn:?; cbn
         end.

Section Effects.

Context `{RT : Runtime}.
Variables (s : MongoSession) (w : world).

Lemma GetOne_keeps_store (result : object) :
  stored (GetOne s result w).1 = stored w.
Proof.
  unfold GetOne. run.
  destruct (IsCustomID (repoDef s)); cbn.
  - unfold mgo.One, GetOne_identity, MapToInterface. split_cases; done.
  - destruct (stringToObjectID (caller_filter w)) as [m [[] | e | why]];
      cbn; try done.
    unfold mgo.One, GetOne_identity, MapToInterface. split_cases; done.
Qed.

Lemma GetAll_keeps_store (hint : object) (order sorting : string)
    (limit offset : Z) :
  stored (GetAll s hint order sorting limit offset w).1 = stored w.
Proof.
  unfold GetAll.
  destruct (AsPtr hint) as [hint' | e | why] eqn:Hp; [| done | done].
  unfold mbind at 1, M_bind at 1, lift at 1.
  unfold mbind at 1, M_bind at 1.
  destruct ((if negb (IsCustomID (repoDef s)) then GetAll_identity else mret tt) w)
    as [w1 r] eqn:Hid.
  pose proof (GetAll_identity_docs _ _ _ _ Hid) as Hd.
  destruct r as [[] | e | why]; [| done | done].
  run. split_cases; done.
Qed.

Lemma custom_GetOne_filter (result : object) :
  IsCustomID (repoDef s) = true →
  caller_filter (GetOne s result w).1 = caller_filter w.
Proof.
  intros Hc. unfold GetOne. rewrite Hc. run.
  unfold mgo.One, GetOne_identity, MapToInterface. split_cases; done.
Qed.

Lemma custom_GetAll_filter (hint : object) (order sorting : string)
    (limit offset : Z) :
  IsCustomID (repoDef s) = true →
  caller_filter (GetAll s hint order sorting limit offset w).1
  = caller_filter w.
Proof.
  intros Hc. unfold GetAll. rewrite Hc. run.
  destruct (AsPtr hint); cbn; try done. split_cases; done.
Qed.

Lemma custom_DeleteOne_filter :
  IsCustomID (repoDef s) = true →
  caller_filter (DeleteOne s w).1 = caller_filter w.
Proof.
  intros Hc. unfold DeleteOne. rewrite Hc. run.
  destruct (mgo.Remove _ _ _) as [ds r]; cbn. split_cases; done.
Qed.

Lemma custom_DeleteAll_filter :
  IsCustomID (repoDef s) = true →
  caller_filter (DeleteAll s w).1 = caller_filter w.
Proof.
  intros Hc. unfold DeleteAll. rewrite Hc. run.
  destruct (mgo.RemoveAll _ _ _) as [ds r]; cbn. split_cases; done.
Qed.

Lemma plain_GetOne_filter (result : object) :
  IsCustomID (repoDef s) = false →
  caller_filter (GetOne s result w).1 !! "id" = None.
Proof.
  intros Hc. unfold GetOne. rewrite Hc. run.
  pose proof (stringToObjectID_no_id (caller_filter w)) as Hno.
  destruct (stringToObjectID (caller_filter w)) as [m [[] | e | why]];
    cbn in *; try done.
  unfold mgo.One, GetOne_identity, MapToInterface. split_cases; done.
Qed.

Lemma plain_DeleteOne_filter :
  IsCustomID (repoDef s) = false →
  caller_filter (DeleteOne s w).1 !! "id" = None.
Proof.
  intros Hc. unfold DeleteOne. rewrite Hc. run.
  pose proof (stringToObjectID_no_id (caller_filter w)) as Hno.
  destruct (stringToObjectID (caller_filter w)) as [m [[] | e | why]];
    cbn in *; try done.
  destruct (mgo.Remove _ _ _) as [ds r]; cbn. split_cases; done.
Qed.

Lemma plain_DeleteAll_filter :
  IsCustomID (repoDef s) = false →
  caller_filter (DeleteAll s w).1 !! "id" = None.
Proof.
  intros Hc. unfold DeleteAll. rewrite Hc. run.
  pose proof (stringToObjectID_no_id (caller_filter w)) as Hno.
  destruct (stringToObjectID (caller_filter w)) as [m [[] | e | why]];
    cbn in *; try done.
  destruct (mgo.RemoveAll _ _ _) as [ds r]; cbn. split_cases; done.
Qed.

End Effects.

(** X14: the two read operations never change the stored documents,
    whatever they return. *)
Theorem reads_keep_the_store `{RT : Runtime} (s : MongoSession) (w : world)
    (result hint : object) (order sorting : string) (limit offset : Z) :
  stored (GetOne s result w).1 = stored w
  ∧ stored (GetAll s hint order sorting limit offset w).1 = stored w.
Proof. split; [apply GetOne_keeps_store | apply GetAll_keeps_store]. Qed.

(** X15: on a repository with custom ids, [GetOne], [GetAll],
    [DeleteOne] and [DeleteAll] leave the caller's filter as it was,
    whatever they return. *)
Theorem custom_id_keeps_the_filter `{RT : Runtime} (s : MongoSession)
    (w : world) (result hint : object) (order sorting : string)
    (limit offset : Z) :
  IsCustomID (repoDef s) = true →
  caller_filter (GetOne s result w).1 = caller_filter w
  ∧ caller_filter (GetAll s hint order sorting limit offset w).1
    = caller_filter w
  ∧ caller_filter (DeleteOne s w).1 = caller_filter w
  ∧ caller_filter (DeleteAll s w).1 = caller_filter w.
Proof.
  intros Hc. split; [by apply custom_GetOne_filter|].
  split; [by apply custom_GetAll_filter|].
  split; [by apply custom_DeleteOne_filter | by apply custom_DeleteAll_filter].
Qed.

Lemma custom_id_keeps_the_filter_witness :
  caller_filter
    (GetOne (RT := reference_runtime) (reference_repository true)
       (OPtr (SMap MapAny ∅))
       {| caller_filter := {[ "id" := VString "u-17" ]}; stored := [] |}).1
  = {[ "id" := VString "u-17" ]}.
Proof.
  exact (proj1 (custom_id_keeps_the_filter (RT := reference_runtime)
                  (reference_repository true)
                  {| caller_filter := {[ "id" := VString "u-17" ]}; stored := [] |}
                  (OPtr (SMap MapAny ∅)) ONil "" "" 0 0 eq_refl)).
Defined.

(** X16: on a repository without custom ids, the caller's filter has
    no [id] any more after [GetOne], [DeleteOne] or [DeleteAll],
    whether the call succeeded, failed or panicked. *)
Theorem plain_id_leaves_the_filter `{RT : Runtime} (s : MongoSession)
    (w : world) (result : object) :
  IsCustomID (repoDef s) = false →
  caller_filter (GetOne s result w).1 !! "id" = None
  ∧ caller_filter (DeleteOne s w).1 !! "id" = None
  ∧ caller_filter (DeleteAll s w).1 !! "id" = None.
Proof.
  intros Hc. split; [by apply plain_GetOne_filter|].
  split; [by apply plain_DeleteOne_filter | by apply plain_DeleteAll_filter].
Qed.

Lemma plain_id_leaves_the_filter_witness :
  caller_filter
    (DeleteOne (reference_repository false)
       {| caller_filter := {[ "id" := VString "xyz" ]}; stored := [ann] |}).1
  !! "id" = None.
Proof.
  exact (proj1 (proj2 (plain_id_leaves_the_filter (RT := reference_runtime)
                         (reference_repository false)
                         {| caller_filter := {[ "id" := VString "xyz" ]};
                            stored := [ann] |}
                         ONil eq_refl))).
Defined.

(** ** Reading one record *)

Lemma GetOne_body `{RT : Runtime} (s : MongoSession) (result : object)
    (f f' : Filter) (ds : list document) :
  normalised_to (IsCustomID (repoDef s)) f f' →
  GetOne s result {| caller_filter := f; stored := ds |}
  = match mgo.One (Session s) ds (mgo.Find f') with
    | inl err => ({| caller_filter := f'; stored := ds |}, Err err)
    | inr record =>
        ({| caller_filter := f'; stored := ds |},
         match GetOne_identity (IsCustomID (repoDef s)) record with
         | Ok record => MapToInterface record result
         | Err e => Err e
         | Panic why => Panic why
         end)
    end.
Proof.
  unfold normalised_to, GetOne. intros Hn. run.
  destruct (IsCustomID (repoDef s)); cbn.
  - injection Hn as <-.
    destruct (mgo.One _ _ _) as [err | record]; cbn.
    + by destruct (is_ErrNotFound err).
    + by destruct (GetOne_identity true record).
  - rewrite Hn. cbn.
    destruct (mgo.One _ _ _) as [err | record]; cbn.
    + by destruct (is_ErrNotFound err).
    + by destruct (GetOne_identity false record).
Qed.

Lemma GetOne_normalises `{RT : Runtime} (s : MongoSession) (result : object)
    (w w' : world) (r : object) :
  GetOne s result w = (w', Ok r) →
  normalised_to (IsCustomID (repoDef s)) (caller_filter w) (caller_filter w').
Proof.
  unfold GetOne, normalised_to. run.
  destruct (IsCustomID (repoDef s)); cbn.
  - unfold mgo.One, GetOne_identity, MapToInterface.
    split_cases; intros [= <- <-]; done.
  - destruct (stringToObjectID (caller_filter w)) as [m [[] | e | why]];
      cbn; try done.
    unfold mgo.One, GetOne_identity, MapToInterface.
    split_cases; intros [= <- <-]; done.
Qed.

(** X17: when [GetOne] succeeds, what it returns is built from the
    first stored document that the normalised filter selects: that
    document holds an ObjectId under [_id], and the result is the
    decoding of the document with the hexadecimal form of that
    identifier added under [id] (stored under [_id] on a repository
    with custom ids). *)
Theorem GetOne_returns_first_selected `{RT : Runtime} (s : MongoSession)
    (result : object) (w w' : world) (r : object) :
  GetOne s result w = (w', Ok r) →
  stored w' = stored w
  ∧ normalised_to (IsCustomID (repoDef s)) (caller_filter w) (caller_filter w')
  ∧ ∃ record oid,
      List.find (mgo.selects (Session s) (caller_filter w')) (stored w)
      = Some record
      ∧ record !! "_id" = Some (VObjectId oid)
      ∧ r = json_Unmarshal
              (<[ (if IsCustomID (repoDef s) then "_id" else "id")
                  := VString (bson.Hex oid) ]> record) result.
Proof.
  intros HG. pose proof (GetOne_normalises _ _ _ _ _ HG) as Hn.
  destruct w as [f ds], w' as [f' ds']. cbn in *.
  rewrite (GetOne_body s result f f' ds Hn) in HG.
  unfold mgo.One in HG. cbn in HG.
  destruct (mgo.fault (Session s)); [done|].
  destruct (List.find _ ds) as [record|] eqn:Hfind; [|done].
  injection HG as <- HG. split; [done|]. split; [done|].
  exists record. unfold GetOne_identity, MapToInterface in HG.
  destruct (record !! "_id") as [[]|] eqn:Hid; try done.
  exists id. split; [done|]. split; [done|].
  destruct (IsCustomID (repoDef s)); destruct (json_Marshal _); by simplify_eq.
Qed.

Lemma GetOne_returns_first_selected_witness :
  ∃ r,
    GetOne (RT := reference_runtime) (reference_repository false)
      (OPtr (SMap MapAny ∅))
      {| caller_filter := {[ "id" := VString (bson.Hex ann_id) ]};
         stored := [ann] |}
    = ({| caller_filter := {[ "_id" := VObjectId ann_id ]}; stored := [ann] |},
       Ok r)
    ∧ ∃ record oid,
        List.find (reference_selects {[ "_id" := VObjectId ann_id ]}) [ann]
        = Some record
        ∧ record !! "_id" = Some (VObjectId oid)
        ∧ r = json_Unmarshal (Runtime := reference_runtime)
                (<[ "id" := VString (bson.Hex oid) ]> record)
                (OPtr (SMap MapAny ∅)).
Proof.
  assert (∃ r, GetOne (RT := reference_runtime)
                 (reference_repository false) (OPtr (SMap MapAny ∅))
                 {| caller_filter := {[ "id" := VString (bson.Hex ann_id) ]};
                    stored := [ann] |}
               = ({| caller_filter := {[ "_id" := VObjectId ann_id ]};
                     stored := [ann] |}, Ok r)) as [r HG]
    by (eexists; vm_compute; reflexivity).
  exists r. split; [exact HG|].
  exact (proj2 (proj2 (GetOne_returns_first_selected (RT := reference_runtime)
                         _ _ _ _ _ HG))).
Defined.

(** X18: the identity of the record that [GetOne] has found is read
    with an unchecked type assertion: when the first selected document
    does not hold an ObjectId under [_id], [GetOne] panics. *)
Theorem GetOne_unchecked_record `{RT : Runtime} (s : MongoSession)
    (result : object) (f f' : Filter) (ds : list document) (record : document) :
  mgo.fault (Session s) = None →
  normalised_to (IsCustomID (repoDef s)) f f' →
  List.find (mgo.selects (Session s) f') ds = Some record →
  (∀ oid, record !! "_id" ≠ Some (VObjectId oid)) →
  GetOne s result {| caller_filter := f; stored := ds |}
  = ({| caller_filter := f'; stored := ds |}, Panic not_an_ObjectId).
Proof.
  intros Hf Hn Hfind Hno. rewrite (GetOne_body s result f f' ds Hn).
  unfold mgo.One. cbn. rewrite Hf, Hfind. f_equal.
  unfold GetOne_identity.
  destruct (record !! "_id") as [[]|] eqn:E; try done. by destruct (Hno id).
Qed.

Lemma GetOne_unchecked_record_witness :
  GetOne (RT := reference_runtime) (reference_repository true)
    (OPtr (SMap MapAny ∅))
    {| caller_filter := {[ "name" := VString "bob" ]};
       stored := [ {[ "_id" := VString "u-17"; "name" := VString "bob" ]} ] |}
  = ({| caller_filter := {[ "name" := VString "bob" ]};
        stored := [ {[ "_id" := VString "u-17"; "name" := VString "bob" ]} ] |},
     Panic not_an_ObjectId).
Proof.
  apply (GetOne_unchecked_record (RT := reference_runtime)
           (reference_repository true) _ _ _ _
           {[ "_id" := VString "u-17"; "name" := VString "bob" ]}).
  - reflexivity.
  - reflexivity.
  - vm_compute; reflexivity.
  - intros oid. vm_compute. discriminate.
Defined.

(** ** Reading many records *)

Lemma All_GetAll_query (session : mgo.Session) (ds : list document)
    (mongoFilter : gmap string any) (order sorting : string) (limit offset : Z) :
  mgo.All session ds (GetAll_query mongoFilter order sorting limit offset)
  = match mgo.fault session with
    | Some e => inl e
    | None => inr (page session order sorting limit offset
                     (List.filter (mgo.selects session mongoFilter) ds))
    end.
Proof.
  unfold mgo.All, GetAll_query, page.
  destruct (mgo.fault session); [done|].
  destruct (String.eqb order ""), (Z.eqb_spec offset 0), (Z.eqb_spec limit 0);
    subst; cbn; try done.
Qed.

Lemma GetAll_inversion (s : MongoSession) (hint : object)
    (order sorting : string) (limit offset : Z) (w w' : world)
    (results : list object) :
  GetAll s hint order sorting limit offset w = (w', Ok results) →
  ∃ hint' mongoFilter selected,
    AsPtr hint = Ok hint'
    ∧ (if negb (IsCustomID (repoDef s)) then GetAll_identity else mret tt) w
      = (w', Ok tt)
    ∧ toMongoFilter (caller_filter w') = inr mongoFilter
    ∧ mgo.All (Session s) (stored w)
        (GetAll_query mongoFilter order sorting limit offset) = inr selected
    ∧ Forall2 (GetAll_normalised (IsCustomID (repoDef s)))
        (mgo.decode (Session s) hint' <$> selected) results.
Proof.
  unfold GetAll.
  destruct (AsPtr hint) as [hint' | e | why] eqn:Hp; [| done | done].
  unfold mbind at 1, M_bind at 1, lift at 1.
  unfold mbind at 1, M_bind at 1.
  destruct ((if negb (IsCustomID (repoDef s)) then GetAll_identity else mret tt) w)
    as [w1 [[] | e | why]] eqn:Hid; [| done | done].
  pose proof (GetAll_identity_docs _ _ _ _ Hid) as Hd.
  run.
  destruct (toMongoFilter (caller_filter w1)) as [e | mongoFilter] eqn:Ht; [done|].
  rewrite Hd.
  destruct (mgo.All (Session s) (stored w) _) as [e | selected] eqn:Hall.
  { by destruct (is_ErrNotFound e). }
  destruct (iterate_from 0 _ _) as [items' r] eqn:Hit.
  apply iterate_GetAll_item in Hit.
  destruct r as [[] | e | why]; [| done | done].
  intros [= <- <-].
  exists hint', mongoFilter, selected. done.
Qed.

Lemma page_length (session : mgo.Session) (order sorting : string)
    (limit offset : Z) (ds : list document) :
  (length (page session order sorting limit offset ds) ≤ length ds)%nat
  ∧ (limit ≠ 0%Z →
     (length (page session order sorting limit offset ds)
      ≤ Z.to_nat (Z.abs limit))%nat).
Proof.
  unfold page.
  set (sorted := if String.eqb order "" then ds else _).
  assert (length sorted = length ds) as Hs.
  { subst sorted. destruct (String.eqb order ""); [done|].
    apply Permutation_length, mgo.sorted_perm. }
  destruct (Z.eqb_spec limit 0) as [-> | Hl].
  - split; [|done]. rewrite length_drop. lia.
  - rewrite length_take, length_drop. split; [lia | intros _; lia].
Qed.

(** X19: a successful [GetAll] returns, element by element, the page
    that its arguments describe of the documents selected by the
    translated filter: sorted by the sort field if one is given, after
    skipping [offset] documents, and at most [limit] of them when
    [limit] is not zero; so it never returns more elements than
    [limit], nor more than there are documents. *)
Theorem GetAll_returns_the_page (s : MongoSession) (hint : object)
    (order sorting : string) (limit offset : Z) (w w' : world)
    (results : list object) :
  GetAll s hint order sorting limit offset w = (w', Ok results) →
  ∃ hint' mongoFilter,
    AsPtr hint = Ok hint'
    ∧ toMongoFilter (caller_filter w') = inr mongoFilter
    ∧ Forall2 (GetAll_normalised (IsCustomID (repoDef s)))
        (mgo.decode (Session s) hint'
         <$> page (Session s) order sorting limit offset
               (List.filter (mgo.selects (Session s) mongoFilter) (stored w)))
        results
    ∧ (length results ≤ length (stored w))%nat
    ∧ (limit ≠ 0%Z → (length results ≤ Z.to_nat (Z.abs limit))%nat).
Proof.
  intros HG.
  destruct (GetAll_inversion _ _ _ _ _ _ _ _ _ HG)
    as (hint' & mongoFilter & selected & Hp & _ & Ht & Hall & HF).
  rewrite All_GetAll_query in Hall.
  destruct (mgo.fault (Session s)); [done|]. injection Hall as <-.
  exists hint', mongoFilter. split; [done|]. split; [done|]. split; [done|].
  apply Forall2_length in HF. rewrite length_fmap in HF. rewrite <- HF.
  destruct (page_length (Session s) order sorting limit offset
              (List.filter (mgo.selects (Session s) mongoFilter) (stored w)))
    as [H1 H2].
  split; [|done].
  pose proof (List.filter_length (mgo.selects (Session s) mongoFilter)
                (stored w)) as H3.
  lia.
Qed.

Lemma GetAll_returns_the_page_witness :
  GetAll (reference_repository false) (OVal (SMap MapAny ∅)) "name" "desc" 1 1
    {| caller_filter := ∅;
       stored := [ann; {[ "name" := VString "bob" ]};
                  {[ "name" := VString "cy" ]}] |}
  = ({| caller_filter := ∅;
        stored := [ann; {[ "name" := VString "bob" ]};
                   {[ "name" := VString "cy" ]}] |},
     Ok [OPtr (SMap MapAny {[ "name" := VString "bob" ]})])
  ∧ (length [OPtr (SMap MapAny ({[ "name" := VString "bob" ]} : gmap string any))]
     ≤ Z.to_nat (Z.abs 1))%nat.
Proof.
  assert (GetAll (reference_repository false) (OVal (SMap MapAny ∅))
            "name" "desc" 1 1
            {| caller_filter := ∅;
               stored := [ann; {[ "name" := VString "bob" ]};
                          {[ "name" := VString "cy" ]}] |}
          = ({| caller_filter := ∅;
                stored := [ann; {[ "name" := VString "bob" ]};
                           {[ "name" := VString "cy" ]}] |},
             Ok [OPtr (SMap MapAny {[ "name" := VString "bob" ]})])) as HG
    by (vm_compute; reflexivity).
  split; [exact HG|].
  destruct (GetAll_returns_the_page _ _ _ _ _ _ _ _ _ HG)
    as (_ & _ & _ & _ & _ & _ & H).
  apply H. lia.
Defined.

(** ** Comma-separated values *)

Lemma Split_cons (c : ascii) (rest : string) :
  ∃ t ts, strings.Split rest comma = t :: ts
    ∧ strings.Split (String c rest) comma
      = if Ascii.eqb c comma then "" :: t :: ts else String c t :: ts.
Proof.
  revert c. induction rest as [| x rest IH]; intros c.
  - exists "", []. split; [done|]. cbn. by destruct (Ascii.eqb c comma).
  - destruct (IH x) as (t & ts & E1 & E2).
    destruct (Ascii.eqb x comma) eqn:Ex.
    + exists "", (t :: ts). split; [by rewrite E2|].
      cbn [strings.Split]. rewrite Ex, E1. by destruct (Ascii.eqb c comma).
    + exists (String x t), ts. split; [by rewrite E2|].
      cbn [strings.Split]. rewrite Ex, E1. by destruct (Ascii.eqb c comma).
Qed.

Lemma Split_more_than_one (s : string) :
  (1 <? length (strings.Split s comma))%nat = strings.Contains s ",".
Proof.
  unfold strings.Contains. induction s as [| c s IH]; [done|].
  rewrite Index_cons. destruct (Split_cons c s) as (t & ts & E1 & ->).
  rewrite E1 in IH. unfold comma. rewrite (Ascii.eqb_sym c ",").
  destruct (Ascii.eqb "," c); [done|].
  cbn [length] in *. rewrite IH. by destruct (strings.Index s ",").
Qed.

(** X20: a string value of a filter is translated to an any-of match
    over its comma-separated entries exactly when it contains a comma;
    without a comma it is copied as it is. *)
Theorem toMongoValue_string (s : string) :
  toMongoValue (VString s)
  = if strings.Contains s ","
    then inr (VBsonM {[ "$in" := VStrings (strings.Split s comma) ]})
    else inr (VString s).
Proof. unfold toMongoValue. by rewrite Split_more_than_one. Qed.

(** X21: on a repository without custom ids, an [id] of the filter that
    holds several valid entries separated by commas is replaced, in
    [GetAll], by the list of their identifiers under [_id]; translation
    then turns that list into an any-of match over the identifiers, and
    the native query has no [id]. *)
Theorem GetAll_many_ids (w : world) (ids : string) :
  caller_filter w !! "id" = Some (VString ids) →
  strings.Contains ids "," = true →
  (∀ t, t ∈ strings.Split ids comma → bson.IsObjectIdHex t = true) →
  ∃ oids,
    bson.Hex <$> oids = strings.ToLower <$> strings.Split ids comma
    ∧ GetAll_identity w
      = ({| caller_filter := <[ "_id" := VObjectIds oids ]>
                               (delete "id" (caller_filter w));
            stored := stored w |}, Ok tt)
    ∧ ∀ mgf,
        toMongoFilter (<[ "_id" := VObjectIds oids ]>
                         (delete "id" (caller_filter w))) = inr mgf →
        mgf !! "_id" = Some (VBsonM {[ "$in" := VObjectIds oids ]})
        ∧ mgf !! "id" = None.
Proof.
  intros Hid Hc Hv.
  destruct (sliceToObjectID_loop_valid _ Hv []) as (oids & E & Hm).
  exists oids. split; [done|]. split.
  - unfold GetAll_identity. run. rewrite Hid, Hc. cbn.
    unfold sliceToObjectID. by rewrite Hid, E.
  - intros mgf Ht.
    pose proof (toMongoFilter_spec
                  (<[ "_id" := VObjectIds oids ]> (delete "id" (caller_filter w))))
      as Hspec.
    rewrite Ht in Hspec. destruct Hspec as [H _].
    rewrite !H, lookup_insert_eq, lookup_insert_ne, lookup_delete_eq by done.
    split; [|done]. cbn. unfold translated, toMongoValue.
    assert ((1 <? length oids)%nat = true) as ->; [|done].
    apply (f_equal length) in Hm. rewrite !length_fmap in Hm. rewrite Hm.
    by rewrite Split_more_than_one.
Qed.

Lemma GetAll_many_ids_witness :
  ∃ oids,
    bson.Hex <$> oids
    = [ "303030303030303030303031"; "303030303030303030303032" ]
    ∧ toMongoFilter (<[ "_id" := VObjectIds oids ]> ∅)
      = inr {[ "_id" := VBsonM {[ "$in" := VObjectIds oids ]} ]}.
Proof.
  destruct (GetAll_many_ids
              {| caller_filter :=
                   {[ "id" := VString "303030303030303030303031,303030303030303030303032" ]};
                 stored := [] |}
              "303030303030303030303031,303030303030303030303032")
    as (oids & Hm & _ & _).
  - apply lookup_singleton_eq.
  - vm_compute; reflexivity.
  - intros t Ht. vm_compute in Ht.
    apply elem_of_cons in Ht as [-> | Ht]; [vm_compute; reflexivity|].
    apply elem_of_cons in Ht as [-> | Ht]; [vm_compute; reflexivity|].
    by apply elem_of_nil in Ht.
  - exists oids. split; [exact Hm|].
    destruct oids as [| a [| b [| c l]]]; try discriminate Hm.
    rewrite insert_empty, toMongoFilter_singleton. reflexivity.
Defined.

(** ** The translated filter *)

(** X22: when [toMongoFilter] succeeds, the native query has exactly
    the fields of the filter: no field is dropped and none is added. *)
Theorem toMongoFilter_keeps_fields (filter mgf : gmap string any) :
  toMongoFilter filter = inr mgf → dom mgf = dom filter.
Proof.
  intros Ht. pose proof (toMongoFilter_spec filter) as Hspec.
  rewrite Ht in Hspec. destruct Hspec as [H1 H2].
  apply set_eq. intros key. rewrite !elem_of_dom, H1.
  destruct (filter !! key) as [v|] eqn:E; cbn.
  - split; [eauto | intros _; by apply (H2 key)].
  - split; intros [? ?]; done.
Qed.

Lemma toMongoFilter_keeps_fields_witness :
  dom ({[ "name" := VBsonM {[ "$regex" := VString "^a.*" ]};
          "age" := VInt 7 ]} : gmap string any)
  = dom ({[ "name" := VMapSS {[ "$pattern" := "a%" ]};
            "age" := VInt 7 ]} : gmap string any).
Proof.
  apply toMongoFilter_keeps_fields. vm_compute; reflexivity.
Defined.

Lemma translated_fixed (v v' : any) :
  translated v = Some v' → translated v' = Some v'.
Proof.
  unfold translated, toMongoValue.
  destruct v; try (by intros [= <-]).
  - destruct (1 <? length (strings.Split s comma))%nat eqn:E;
      intros [= <-]; [done|]. by rewrite E.
  - destruct (1 <? length ids)%nat eqn:E; intros [= <-]; [done|].
    by rewrite E.
  - destruct (m !! "$pattern"); by intros [= <-].
Qed.

(** X23: translation is idempotent: translating a native query that
    [toMongoFilter] has produced succeeds and returns it unchanged. *)
Theorem toMongoFilter_idempotent (filter mgf : gmap string any) :
  toMongoFilter filter = inr mgf → toMongoFilter mgf = inr mgf.
Proof.
  intros Ht. pose proof (toMongoFilter_spec filter) as Hspec.
  rewrite Ht in Hspec. destruct Hspec as [H1 _].
  assert (∀ key v', mgf !! key = Some v' → translated v' = Some v') as Hfix.
  { intros key v'. rewrite H1.
    destruct (filter !! key) as [v|]; [|done]. cbn. apply translated_fixed. }
  pose proof (toMongoFilter_spec mgf) as Hspec.
  destruct (toMongoFilter mgf) as [e | mgf'].
  - destruct Hspec as (_ & key & specs & Hk & Hs).
    specialize (Hfix key _ Hk). unfold translated in Hfix. cbn in Hfix.
    by rewrite Hs in Hfix.
  - destruct Hspec as [H2 _]. f_equal. apply map_eq. intros key.
    rewrite H2. destruct (mgf !! key) as [v'|] eqn:E; [|done].
    cbn. by apply (Hfix key).
Qed.

Lemma toMongoFilter_idempotent_witness :
  toMongoFilter {[ "name" := VBsonM {[ "$in" := VStrings ["ann"; "bob"] ]} ]}
  = inr {[ "name" := VBsonM {[ "$in" := VStrings ["ann"; "bob"] ]} ]}.
Proof.
  apply (toMongoFilter_idempotent {[ "name" := VString "ann,bob" ]}).
  vm_compute; reflexivity.
Defined.

(** ** Writing *)

Lemma split_first_none (p : document → bool) (ds : list document) :
  (∀ d, d ∈ ds → p d = false) → mgo.split_first p ds = None.
Proof.
  induction ds as [| d ds IH]; intros Hn; [done|].
  cbn. rewrite (Hn d) by constructor.
  rewrite IH; [done|]. intros x Hx. apply Hn. by constructor.
Qed.

Lemma split_first_some (p : document → bool) (ds before after : list document)
    (d : document) :
  mgo.split_first p ds = Some (before, d, after) →
  ds = before ++ d :: after ∧ p d = true ∧ ∀ x, x ∈ before → p x = false.
Proof.
  revert before. induction ds as [| x ds IH]; intros before; [done|].
  cbn. destruct (p x) eqn:Hx.
  - intros [= <- <- <-]. split; [done|]. split; [done|].
    intros y Hy. by apply elem_of_nil in Hy.
  - destruct (mgo.split_first p ds) as [[[b y] a]|]; [|done].
    intros [= <- <- <-]. destruct (IH b eq_refl) as (-> & Hy & Hb).
    split; [done|]. split; [done|].
    intros z Hz. apply elem_of_cons in Hz as [-> | Hz]; [done | by apply Hb].
Qed.


Lemma strip_id (payload : gmap string any) :
  match payload !! "_id" with
  | Some _ => delete "_id" payload
  | None => payload
  end = delete "_id" payload.
Proof.
  destruct (payload !! "_id") eqn:E; [done|]. symmetry. by apply delete_id.
Qed.

Section Writes.

Context `{RT : Runtime}.
Variables (s : MongoSession) (obj : object) (payload : gmap string any).
Hypothesis healthy : mgo.fault (Session s) = None.
Hypothesis converted : InterfaceToMap obj = Ok payload.

Lemma Save_insert_refused (ds : list document) (err : error) :
  mgo.write_error (Session s) ds
    (inserted_document (IsCustomID (repoDef s)) payload) = Some err →
  Save s obj None ds
  = (None, ds, Err (if mgo.IsDup err then already_exists else err)).
Proof.
  intros Hw. unfold Save, Save_insert. rewrite converted. run.
  unfold mgo.Insert. rewrite healthy.
  unfold inserted_document in Hw. rewrite Hw. cbn.
  by destruct (mgo.IsDup err).
Qed.


Lemma Save_update_body (f f' : Filter) (ds : list document) :
  normalised_to (IsCustomID (repoDef s)) f f' →
  Save s obj (Some f) ds
  = match mgo.Update (Session s) ds f' (delete "_id" payload) with
    | (ds', Some err) =>
        (Some f', ds',
         Err (if is_ErrNotFound err then ErrNotFound (Cause err)
              else if mgo.IsDup err then already_exists else err))
    | (ds', None) =>
        let '(w, r) := GetOne s obj {| caller_filter := f'; stored := ds' |} in
        (Some (caller_filter w), stored w, r)
    end.
Proof.
  unfold normalised_to. intros Hn.
  unfold Save, Save_update. rewrite converted. run. rewrite strip_id.
  destruct (IsCustomID (repoDef s)); cbn.
  - injection Hn as <-.
    destruct (mgo.Update _ _ _ _) as [ds' [err|]]; cbn; [|done].
    by destruct (is_ErrNotFound err), (mgo.IsDup err).
  - rewrite Hn. cbn.
    destruct (mgo.Update _ _ _ _) as [ds' [err|]]; cbn; [|done].
    by destruct (is_ErrNotFound err), (mgo.IsDup err).
Qed.

End Writes.



(** When the server refuses the document in insert mode, [Save]
    stores nothing; a duplicate-key refusal comes back as an
    AlreadyExists error, any other refusal as the driver's own error. *)
Theorem Save_insert_failure `{RT : Runtime} (s : MongoSession) (obj : object)
    (payload : gmap string any) (ds : list document) (err : error) :
  mgo.fault (Session s) = None →
  InterfaceToMap obj = Ok payload →
  mgo.write_error (Session s) ds
    (inserted_document (IsCustomID (repoDef s)) payload) = Some err →
  Save s obj None ds
  = (None, ds, Err (if mgo.IsDup err then already_exists else err))
  ∧ error_kind already_exists = Some AlreadyExists.
Proof.
  intros Hf Hp Hw. split; [|done].
  exact (Save_insert_refused s obj payload Hf Hp ds err Hw).
Qed.

Lemma Save_insert_failure_witness :
  Save (RT := reference_runtime)
    {| Session :=
         {| mgo.selects := reference_selects;
            mgo.sorted := λ _ l, l;
            mgo.sorted_perm := λ _ l, reflexivity l;
            mgo.write_error := λ _ _, Some (MgoLastError 11000 "E11000 duplicate key");
            mgo.decode := reference_decode;
            mgo.index_reply := accepting;
            mgo.fault := None |};
       repoDef := reference_definition false;
       databaseName := "db"; collectionName := "users" |}
    (OPtr (SMap MapAny {[ "name" := VString "bob" ]})) None [ann]
  = (None, [ann], Err already_exists).
Proof.
  refine (proj1 (Save_insert_failure (RT := reference_runtime) _ _
                   {[ "name" := VString "bob" ]} [ann]
                   (MgoLastError 11000 "E11000 duplicate key") _ _ _));
    reflexivity.
Defined.



(** ** Deleting *)

Lemma DeleteOne_body (s : MongoSession) (f f' : Filter) (ds : list document) :
  normalised_to (IsCustomID (repoDef s)) f f' →
  DeleteOne s {| caller_filter := f; stored := ds |}
  = match mgo.Remove (Session s) ds f' with
    | (ds', Some err) =>
        ({| caller_filter := f'; stored := ds' |},
         Err (if is_ErrNotFound err then ErrNotFound (Cause err) else err))
    | (ds', None) => ({| caller_filter := f'; stored := ds' |}, Ok tt)
    end.
Proof.
  unfold normalised_to, DeleteOne. intros Hn. run.
  destruct (IsCustomID (repoDef s)); cbn.
  - injection Hn as <-.
    destruct (mgo.Remove _ _ _) as [ds' [err|]]; cbn; [|done].
    by destruct (is_ErrNotFound err).
  - rewrite Hn. cbn.
    destruct (mgo.Remove _ _ _) as [ds' [err|]]; cbn; [|done].
    by destruct (is_ErrNotFound err).
Qed.

Lemma DeleteAll_body (s : MongoSession) (f f' : Filter) (ds : list document) :
  normalised_to (IsCustomID (repoDef s)) f f' →
  DeleteAll s {| caller_filter := f; stored := ds |}
  = match mgo.RemoveAll (Session s) ds f' with
    | (ds', Some err) =>
        ({| caller_filter := f'; stored := ds' |},
         Err (if is_ErrNotFound err then ErrNotFound (Cause err) else err))
    | (ds', None) => ({| caller_filter := f'; stored := ds' |}, Ok tt)
    end.
Proof.
  unfold normalised_to, DeleteAll. intros Hn. run.
  destruct (IsCustomID (repoDef s)); cbn.
  - injection Hn as <-.
    destruct (mgo.RemoveAll _ _ _) as [ds' [err|]]; cbn; [|done].
    by destruct (is_ErrNotFound err).
  - rewrite Hn. cbn.
    destruct (mgo.RemoveAll _ _ _) as [ds' [err|]]; cbn; [|done].
    by destruct (is_ErrNotFound err).
Qed.

Lemma filter_selects_none (p : document → bool) (ds : list document) :
  (∀ d, d ∈ ds → p d = false) → List.filter (λ d, negb (p d)) ds = ds.
Proof.
  induction ds as [| d ds IH]; intros Hn; [done|].
  cbn. rewrite (Hn d) by constructor. cbn. f_equal.
  apply IH. intros x Hx. apply Hn. by constructor.
Qed.

(** X26: when the normalised filter selects no document, [DeleteOne]
    and [Save] in update mode fail with an error of the NotFound kind
    that wraps the driver's [ErrNotFound], while [DeleteAll] succeeds;
    none of them changes the store. *)
Theorem nothing_to_write `{RT : Runtime} (s : MongoSession) (f f' : Filter)
    (ds : list document) :
  mgo.fault (Session s) = None →
  normalised_to (IsCustomID (repoDef s)) f f' →
  selects_none (Session s) f' ds →
  DeleteOne s {| caller_filter := f; stored := ds |}
  = ({| caller_filter := f'; stored := ds |},
     Err (ErrNotFound (Cause mgo.ErrNotFound)))
  ∧ DeleteAll s {| caller_filter := f; stored := ds |}
    = ({| caller_filter := f'; stored := ds |}, Ok tt)
  ∧ ∀ obj payload, InterfaceToMap obj = Ok payload →
      Save s obj (Some f) ds
      = (Some f', ds, Err (ErrNotFound (Cause mgo.ErrNotFound))).
Proof.
  intros Hf Hn Hs. split; [|split].
  - rewrite (DeleteOne_body s f f' ds Hn). unfold mgo.Remove.
    by rewrite Hf, (split_first_none _ _ Hs).
  - rewrite (DeleteAll_body s f f' ds Hn). unfold mgo.RemoveAll.
    by rewrite Hf, (filter_selects_none _ _ Hs).
  - intros obj payload Hp.
    rewrite (Save_update_body s obj payload Hp f f' ds Hn). unfold mgo.Update.
    by rewrite Hf, (split_first_none _ _ Hs).
Qed.

Lemma nothing_to_write_witness :
  DeleteOne (reference_repository false)
    {| caller_filter := {[ "name" := VString "nobody" ]}; stored := [ann] |}
  = ({| caller_filter := {[ "name" := VString "nobody" ]}; stored := [ann] |},
     Err (ErrNotFound (Cause mgo.ErrNotFound)))
  ∧ DeleteAll (reference_repository false)
      {| caller_filter := {[ "name" := VString "nobody" ]}; stored := [ann] |}
    = ({| caller_filter := {[ "name" := VString "nobody" ]}; stored := [ann] |},
       Ok tt).
Proof.
  destruct (nothing_to_write (RT := reference_runtime)
              (reference_repository false) {[ "name" := VString "nobody" ]}
              {[ "name" := VString "nobody" ]} [ann]) as (H1 & H2 & _).
  - reflexivity.
  - reflexivity.
  - intros d Hd. apply elem_of_cons in Hd as [-> | Hd]; [vm_compute; reflexivity|].
    by apply elem_of_nil in Hd.
  - split; [exact H1 | exact H2].
Defined.

Lemma DeleteAll_success (s : MongoSession) (w w' : world) :
  DeleteAll s w = (w', Ok tt) →
  mgo.fault (Session s) = None
  ∧ normalised_to (IsCustomID (repoDef s)) (caller_filter w) (caller_filter w')
  ∧ stored w'
    = List.filter (λ d, negb (mgo.selects (Session s) (caller_filter w') d))
        (stored w).
Proof.
  unfold DeleteAll, normalised_to. run.
  destruct (IsCustomID (repoDef s)); cbn.
  - unfold mgo.RemoveAll. destruct (mgo.fault (Session s)); cbn; [|].
    + by destruct (is_ErrNotFound e).
    + by intros [= <-].
  - destruct (stringToObjectID (caller_filter w)) as [m [[] | e | why]];
      cbn; try done.
    unfold mgo.RemoveAll. destruct (mgo.fault (Session s)); cbn.
    + by destruct (is_ErrNotFound e).
    + by intros [= <-].
Qed.

Lemma find_filter_negb (p : document → bool) (ds : list document) :
  List.find p (List.filter (λ d, negb (p d)) ds) = None.
Proof.
  induction ds as [| d ds IH]; [done|]. cbn.
  destruct (p d) eqn:E; cbn; [done|]. by rewrite E.
Qed.

(** X27: delete then look up.  After a successful [DeleteAll], the
    store holds exactly the documents that the normalised filter does
    not select, in their order, and a [GetOne] with the same filter
    finds nothing: it returns the driver's [ErrNotFound]. *)
Theorem DeleteAll_then_GetOne `{RT : Runtime} (s : MongoSession)
    (w w' : world) (result : object) :
  DeleteAll s w = (w', Ok tt) →
  stored w'
  = List.filter (λ d, negb (mgo.selects (Session s) (caller_filter w') d))
      (stored w)
  ∧ GetOne s result w' = (w', Err mgo.ErrNotFound).
Proof.
  intros HD. destruct (DeleteAll_success s w w' HD) as (Hf & Hn & Hst).
  split; [done|].
  assert (normalised_to (IsCustomID (repoDef s)) (caller_filter w')
            (caller_filter w')) as Hn'.
  { unfold normalised_to in *. destruct (IsCustomID (repoDef s)); [done|].
    apply stringToObjectID_absent.
    pose proof (stringToObjectID_no_id (caller_filter w)) as Hno.
    by rewrite Hn in Hno. }
  destruct w' as [f' ds']. cbn in *.
  rewrite (GetOne_body s result f' f' ds' Hn').
  unfold mgo.One, mgo.Find. cbn [mgo.q_filter].
  by rewrite Hf, Hst, find_filter_negb.
Qed.

Lemma DeleteAll_then_GetOne_witness :
  DeleteAll (reference_repository false)
    {| caller_filter := {[ "id" := VString (bson.Hex ann_id) ]};
       stored := [ann; {[ "name" := VString "bob" ]}] |}
  = ({| caller_filter := {[ "_id" := VObjectId ann_id ]};
        stored := [ {[ "name" := VString "bob" ]} ] |}, Ok tt)
  ∧ GetOne (RT := reference_runtime) (reference_repository false)
      (OPtr (SMap MapAny ∅))
      {| caller_filter := {[ "_id" := VObjectId ann_id ]};
         stored := [ {[ "name" := VString "bob" ]} ] |}
    = ({| caller_filter := {[ "_id" := VObjectId ann_id ]};
          stored := [ {[ "name" := VString "bob" ]} ] |}, Err mgo.ErrNotFound).
Proof.
  assert (DeleteAll (reference_repository false)
            {| caller_filter := {[ "id" := VString (bson.Hex ann_id) ]};
               stored := [ann; {[ "name" := VString "bob" ]}] |}
          = ({| caller_filter := {[ "_id" := VObjectId ann_id ]};
                stored := [ {[ "name" := VString "bob" ]} ] |}, Ok tt)) as HD
    by (vm_compute; reflexivity).
  split; [exact HD|].
  exact (proj2 (DeleteAll_then_GetOne (RT := reference_runtime) _ _ _
                  (OPtr (SMap MapAny ∅)) HD)).
Defined.

(** X28: a successful [DeleteOne] removes exactly one document, the
    first that the normalised filter selects; the documents before and
    after it stay, in their order. *)
Theorem DeleteOne_removes_first (s : MongoSession) (w w' : world) :
  DeleteOne s w = (w', Ok tt) →
  ∃ before d after,
    stored w = before ++ d :: after
    ∧ stored w' = before ++ after
    ∧ mgo.selects (Session s) (caller_filter w') d = true
    ∧ ∀ x, x ∈ before → mgo.selects (Session s) (caller_filter w') x = false.
Proof.
  unfold DeleteOne. run.
  assert (∀ f ds,
    match mgo.Remove (Session s) ds f with
    | (ds', None) =>
        ∃ before d after, ds = before ++ d :: after ∧ ds' = before ++ after
          ∧ mgo.selects (Session s) f d = true
          ∧ ∀ x, x ∈ before → mgo.selects (Session s) f x = false
    | (_, Some _) => True
    end) as Hrem.
  { intros f ds. unfold mgo.Remove.
    destruct (mgo.fault (Session s)); [done|].
    destruct (mgo.split_first _ ds) as [[[before d] after]|] eqn:E; [|done].
    apply split_first_some in E as (-> & Hd & Hb). by exists before, d, after. }
  destruct (IsCustomID (repoDef s)); cbn.
  - specialize (Hrem (caller_filter w) (stored w)).
    destruct (mgo.Remove _ _ _) as [ds' [err|]]; cbn.
    + by destruct (is_ErrNotFound err).
    + by intros [= <-].
  - destruct (stringToObjectID (caller_filter w)) as [m [[] | e | why]];
      cbn; try done.
    specialize (Hrem m (stored w)).
    destruct (mgo.Remove _ _ _) as [ds' [err|]]; cbn.
    + by destruct (is_ErrNotFound err).
    + by intros [= <-].
Qed.

Lemma DeleteOne_removes_first_witness :
  DeleteOne (reference_repository false)
    {| caller_filter := {[ "name" := VString "bob" ]};
       stored := [ann; {[ "name" := VString "bob" ]};
                  {[ "name" := VString "bob"; "age" := VInt 7 ]}] |}
  = ({| caller_filter := {[ "name" := VString "bob" ]};
        stored := [ann; {[ "name" := VString "bob"; "age" := VInt 7 ]}] |},
     Ok tt)
  ∧ ∃ before d after,
      [ann; {[ "name" := VString "bob" ]};
       {[ "name" := VString "bob"; "age" := VInt 7 ]}]
      = before ++ d :: after
      ∧ [ann; {[ "name" := VString "bob"; "age" := VInt 7 ]}] = before ++ after
      ∧ reference_selects {[ "name" := VString "bob" ]} d = true
      ∧ ∀ x, x ∈ before → reference_selects {[ "name" := VString "bob" ]} x = false.
Proof.
  assert (DeleteOne (reference_repository false)
            {| caller_filter := {[ "name" := VString "bob" ]};
               stored := [ann; {[ "name" := VString "bob" ]};
                          {[ "name" := VString "bob"; "age" := VInt 7 ]}] |}
          = ({| caller_filter := {[ "name" := VString "bob" ]};
                stored := [ann; {[ "name" := VString "bob"; "age" := VInt 7 ]}] |},
             Ok tt)) as HD by (vm_compute; reflexivity).
  split; [exact HD|].
  exact (DeleteOne_removes_first _ _ _ HD).
Defined.

(** ** Escaped wildcards *)

Lemma ordinary_spec (c : ascii) :
  ordinary c = true →
  Ascii.eqb c NUL = false
  ∧ Ascii.eqb c "^" = false ∧ Ascii.eqb c "$" = false
  ∧ Ascii.eqb c "." = false ∧ Ascii.eqb c "*" = false
  ∧ regex.atom_of c = Some (regex.Lit c).
Proof.
  destruct c as [b0 b1 b2 b3 b4 b5 b6 b7].
  destruct b0, b1, b2, b3, b4, b5, b6, b7; vm_compute; try discriminate;
    intros _; repeat split; reflexivity.
Qed.

Lemma ascii_text_cons (c : ascii) (p : string) :
  ascii_text (String c p) = true →
  (N_of_ascii c < 128)%N ∧ ascii_text p = true.
Proof.
  cbn [ascii_text]. intros [Hc Hp]%andb_prop. split; [|done].
  by apply N.ltb_lt.
Qed.

Lemma toMongoPattern_loop_escape (p acc : string) (prev : utf8.rune) :
  ordinary_text p = true → ascii_text p = true →
  N.eqb prev (utf8.rune_of percent) = false →
  ∃ prev', toMongoPattern_loop (utf8.runes (escape p)) acc prev
           = (acc +:+ p, prev')
           ∧ N.eqb prev' (utf8.rune_of percent) = false.
Proof.
  revert acc prev. induction p as [| c p IH]; intros acc prev Hp Ha Hprev.
  - exists prev. split; [|done]. cbn. f_equal.
    induction acc as [| a acc IHa]; [done|]. by rewrite append_cons, <- IHa.
  - cbn [ordinary_text] in Hp. apply andb_prop in Hp as [Hc Hp].
    apply ascii_text_cons in Ha as [Hc128 Ha].
    destruct (ordinary_spec c Hc) as (Hnul & _).
    cbn [escape]. destruct (Ascii.eqb c percent) eqn:Hpc.
    + apply Ascii.eqb_eq in Hpc as ->.
      rewrite !runes_cons_ascii by done.
      cbn [toMongoPattern_loop]. rewrite !N.eqb_refl, Hprev.
      destruct (IH (acc +:+ "%") (utf8.rune_of NUL) Hp Ha eq_refl)
        as (prev' & -> & Hprev').
      exists prev'. split; [|done]. by rewrite append_assoc.
    + rewrite runes_cons_ascii by done.
      cbn [toMongoPattern_loop].
      rewrite !rune_of_eqb, Hpc, Hprev, Hnul. cbn [negb].
      rewrite (EncodeRune_ascii c Hc128).
      destruct (IH (acc +:+ String c "") (utf8.rune_of c) Hp Ha)
        as (prev' & -> & Hprev'); [by rewrite rune_of_eqb|].
      exists prev'. split; [|done]. by rewrite append_assoc.
Qed.

Lemma ordinary_text_no_star (p : string) :
  ordinary_text p = true → regex.occurs "*" p = false.
Proof.
  induction p as [| c p IH]; [done|]. cbn.
  intros [Hc Hp]%andb_prop. destruct (ordinary_spec c Hc) as (_&_&_&_&->&_).
  by apply IH.
Qed.

Lemma toMongoPattern_escape (p : string) :
  ordinary_text p = true → ascii_text p = true →
  toMongoPattern (escape p) = "^" +:+ p +:+ "$".
Proof.
  intros Hp Ha. unfold toMongoPattern.
  destruct (toMongoPattern_loop_escape p "" (utf8.rune_of NUL) Hp Ha eq_refl)
    as (prev & -> & Hprev).
  rewrite Hprev, append_nil_l.
  assert (strings.HasPrefix p ".*" = false) as ->.
  { destruct p as [| c p]; [done|]. cbn in Hp.
    apply andb_prop in Hp as [Hc _].
    destruct (ordinary_spec c Hc) as (_&_&_&Hdot&_).
    change (strings.HasPrefix (String c p) ".*")
      with (Ascii.eqb "." c && strings.HasPrefix p "*").
    by rewrite Ascii.eqb_sym, Hdot. }
  cbn [negb].
  assert (strings.HasSuffix ("^" +:+ p) ".*" = false) as ->.
  { destruct (strings.HasSuffix ("^" +:+ p) ".*") eqn:E; [|done].
    apply HasSuffix_star in E. rewrite occurs_append in E.
    by rewrite (ordinary_text_no_star p Hp) in E. }
  cbn [negb]. by rewrite append_assoc.
Qed.

Lemma parse_ordinary (p : string) :
  ordinary_text p = true →
  regex.parse (p +:+ "$") = Some (literal p ++ [regex.Eol]).
Proof.
  induction p as [| c p IH]; [done|].
  cbn [ordinary_text]. intros [Hc Hp]%andb_prop.
  destruct (ordinary_spec c Hc) as (_ & Hhat & Hdollar & _ & _ & Hatom).
  rewrite append_cons, parse_cons, Hhat, Hdollar, Hatom.
  specialize (IH Hp).
  destruct p as [| x p].
  - rewrite append_nil_l in *. by rewrite IH.
  - rewrite append_cons in *.
    cbn [ordinary_text] in Hp. apply andb_prop in Hp as [Hx _].
    destruct (ordinary_spec x Hx) as (_ & _ & _ & _ & -> & _).
    by rewrite IH.
Qed.

(** X29: a doubled [%] stands for a literal [%]: for every ASCII
    text without NUL and without an operator of the expression
    language, the pattern obtained by doubling each [%] of the text is
    translated to the text itself between [^] and [$], which matches
    that text and, besides the text followed by one final line feed,
    nothing else. *)
Theorem escaped_pattern_is_literal (p : string) :
  ordinary_text p = true → ascii_text p = true →
  toMongoPattern (escape p) = "^" +:+ p +:+ "$"
  ∧ ∀ subject,
      regex.matches (toMongoPattern (escape p)) subject = Some true
      ↔ subject = p ∨ subject = p +:+ String regex.LF "".
Proof.
  intros Hp Ha. rewrite (toMongoPattern_escape p Hp Ha). split; [done|].
  intros subject. unfold regex.matches.
  rewrite append_cons, append_nil_l, parse_cons. cbn [Ascii.eqb Bool.eqb].
  rewrite (parse_ordinary p Hp). cbn [fmap option_fmap option_map].
  rewrite <- (match_literal p true subject).
  assert (regex.search (regex.Bol :: literal p ++ [regex.Eol]) true subject
          = regex.match_here (literal p ++ [regex.Eol]) true subject) as ->.
  { destruct subject as [| c s']; cbn [regex.search regex.match_here andb].
    - apply orb_false_r.
    - change (regex.search (regex.Bol :: literal p ++ [regex.Eol]) false s')
        with (regex.search (regex.Bol :: (literal p ++ [regex.Eol])) false s').
      rewrite search_bol_later. apply orb_false_r. }
  split; [by intros [= ->] | by intros ->].
Qed.

Lemma escaped_pattern_is_literal_witness :
  ordinary_text "100% sure" = true ∧ ascii_text "100% sure" = true
  ∧ toMongoPattern "100%% sure" = "^100% sure$"
  ∧ regex.matches "^100% sure$" "100% sure" = Some true.
Proof.
  destruct (escaped_pattern_is_literal "100% sure") as [H1 H2];
    [reflexivity ..|].
  split; [reflexivity|]. split; [reflexivity|].
  split; [exact H1|].
  change "^100% sure$" with ("^" +:+ "100% sure" +:+ "$").
  rewrite <- H1. apply H2. by left.
Defined.

(** ** Prefix search *)

Lemma toMongoPattern_loop_prefix (p acc : string) (prev : utf8.rune) :
  plain_text p = true → ascii_text p = true →
  N.eqb prev (utf8.rune_of percent) = false →
  toMongoPattern_loop (utf8.runes (p +:+ "%")) acc prev
  = (acc +:+ p, utf8.rune_of percent).
Proof.
  revert acc prev. induction p as [| c p IH]; intros acc prev Hp Ha Hprev.
  - rewrite append_nil_l.
    change (utf8.runes "%") with [utf8.rune_of percent].
    cbn [toMongoPattern_loop]. rewrite N.eqb_refl, Hprev. f_equal.
    induction acc as [| a acc IHa]; [done|]. by rewrite append_cons, <- IHa.
  - cbn [plain_text] in Hp. apply andb_prop in Hp as [Hc Hp].
    apply ascii_text_cons in Ha as [Hc128 Ha].
    destruct (plain_spec c Hc) as (Hpc & Hnul & _).
    rewrite append_cons, runes_cons_ascii by done.
    cbn [toMongoPattern_loop].
    rewrite !rune_of_eqb, Hpc, Hprev, Hnul. cbn [negb].
    rewrite (EncodeRune_ascii c Hc128).
    rewrite (IH (acc +:+ String c "") (utf8.rune_of c) Hp Ha)
      by (by rewrite rune_of_eqb).
    by rewrite append_assoc.
Qed.

Lemma HasSuffix_append (x suffix : string) :
  strings.HasSuffix (x +:+ suffix) suffix = true.
Proof.
  induction x as [| c x IH].
  - rewrite append_nil_l. destruct suffix; cbn; [done|].
    by rewrite Ascii.eqb_refl, String.eqb_refl.
  - rewrite append_cons.
    change (strings.HasSuffix (String c (x +:+ suffix)) suffix)
      with (if String.eqb (String c (x +:+ suffix)) suffix then true
            else strings.HasSuffix (x +:+ suffix) suffix).
    rewrite IH. by destruct (String.eqb _ _).
Qed.

Lemma parse_plain_prefix (p : string) :
  plain_text p = true →
  regex.parse (p +:+ ".*")
  = Some (literal p ++ [regex.Star regex.AnyChar]).
Proof.
  induction p as [| c p IH]; [done|].
  cbn [plain_text]. intros [Hc Hp]%andb_prop.
  destruct (plain_spec c Hc) as (_ & _ & Hhat & Hdollar & _ & _ & Hatom).
  rewrite append_cons, parse_cons, Hhat, Hdollar, Hatom.
  specialize (IH Hp).
  destruct p as [| x p].
  - rewrite append_nil_l in *. by rewrite IH.
  - rewrite append_cons in *.
    cbn [plain_text] in Hp. apply andb_prop in Hp as [Hx _].
    destruct (plain_spec x Hx) as (_ & _ & _ & _ & _ & -> & _).
    by rewrite IH.
Qed.

Lemma match_any_rest (bol : bool) (s : string) :
  regex.match_here [regex.Star regex.AnyChar] bol s = true.
Proof. by destruct s. Qed.

Lemma match_literal_prefix (p : string) :
  ∀ bol s,
    regex.match_here (literal p ++ [regex.Star regex.AnyChar]) bol s = true
    ↔ ∃ rest, s = p +:+ rest.
Proof.
  induction p as [| c p IH]; intros bol s.
  - cbn [literal app]. rewrite match_any_rest. split; [|done].
    intros _. by exists s.
  - cbn [literal app regex.match_here regex.accepts].
    destruct s as [| x s].
    + split; [done | by intros [rest [=]]].
    + rewrite andb_true_iff, Ascii.eqb_eq, IH. split.
      * intros [-> [rest ->]]. by exists rest.
      * intros [rest [= -> ->]]. split; [done | by exists rest].
Qed.

Lemma search_anchored (nodes : list regex.node) (s : string) :
  regex.search (regex.Bol :: nodes) true s = regex.match_here nodes true s.
Proof.
  destruct s as [| c s]; cbn [regex.search regex.match_here andb].
  - apply orb_false_r.
  - rewrite search_bol_later. apply orb_false_r.
Qed.

(** X30: a pattern of ordinary ASCII text followed by one [%] is a
    prefix search: its translation matches exactly the strings that
    start with the text (whatever follows, line feeds included). *)
Theorem prefix_pattern (p subject : string) :
  plain_text p = true → ascii_text p = true →
  toMongoPattern (p +:+ "%")
  = (if String.eqb p "" then ".*" else "^" +:+ p +:+ ".*")
  ∧ (regex.matches (toMongoPattern (p +:+ "%")) subject = Some true
     ↔ ∃ rest, subject = p +:+ rest).
Proof.
  intros Hp Ha.
  assert (toMongoPattern (p +:+ "%")
          = (if String.eqb p "" then ".*" else "^" +:+ p +:+ ".*")) as E.
  { unfold toMongoPattern.
    rewrite (toMongoPattern_loop_prefix p "" (utf8.rune_of NUL) Hp Ha eq_refl).
    rewrite N.eqb_refl, append_nil_l.
    destruct p as [| c p]; [done|].
    cbn [plain_text] in Hp. apply andb_prop in Hp as [Hc _].
    destruct (plain_spec c Hc) as (_&_&_&_&Hdot&_).
    rewrite append_cons.
    change (strings.HasPrefix (String c (p +:+ ".*")) ".*")
      with (Ascii.eqb "." c && strings.HasPrefix (p +:+ ".*") "*").
    rewrite Ascii.eqb_sym, Hdot. cbn [andb negb].
    change ("^" +:+ String c (p +:+ ".*")) with (("^" +:+ String c p) +:+ ".*").
    by rewrite HasSuffix_append. }
  split; [exact E|]. rewrite E.
  destruct (String.eqb_spec p "") as [-> | Hne].
  - split; [intros _; by exists subject|]. intros _.
    unfold regex.matches. cbn. by destruct subject.
  - unfold regex.matches.
    rewrite append_cons, append_nil_l, parse_cons. cbn [Ascii.eqb Bool.eqb].
    rewrite (parse_plain_prefix p Hp). cbn [fmap option_fmap option_map].
    rewrite search_anchored, <- (match_literal_prefix p true subject).
    split; [by intros [= ->] | by intros ->].
Qed.

Lemma prefix_pattern_witness :
  plain_text "ann" = true ∧ ascii_text "ann" = true
  ∧ toMongoPattern "ann%" = "^ann.*"
  ∧ regex.matches "^ann.*" "annabel" = Some true.
Proof.
  destruct (prefix_pattern "ann" "annabel") as [H1 H2]; [reflexivity ..|].
  split; [reflexivity|]. split; [reflexivity|].
  split; [exact H1|].
  change "^ann.*" with (if String.eqb "ann" "" then ".*" else "^" +:+ "ann" +:+ ".*").
  rewrite <- H1. apply H2. by exists "abel".
Defined.
